(** * Elorities: a pairwise-comparison ranker ([src/ranker.py])

    A shallow embedding of the core of [PriorityRanker]: the rating table,
    its initialisation, the Elo update, the ranking view and the way the two
    JSON documents of a theme are written; then the list of themes and the
    dialogues that create a theme, add items to it and rank them.

    Python numbers are embedded through an interface, [PyNum], with two
    instances:
    - [binary64]: IEEE 754 double precision, the arithmetic the interpreter
      really performs (Rocq's primitive floats, which compute);
    - [ideal]: exact real arithmetic, the arithmetic the Elo formulas are
      usually read in.
    Every definition of the program is written once, over the interface.

    Conventions.
    - An [int] that meets a [float] is converted to it; the only integers
      the program mixes with ratings are small literals, which are exact in
      binary64, so a rating is a [num] throughout and the counters are [Z].
    - A rating record is a record: the program reads the seven keys it
      writes, and a table whose records lack one is outside the model.
    - A function that can raise returns a [result]; a function that reads or
      writes [themes/] takes the [World] and returns the new one.
    - [print] is not modelled; [view_rankings] returns the lines it would
      print. A function that calls [input] or [random.sample] takes the
      lines typed and the items drawn as arguments. The menu
      ([show_main_menu], [run]) is not modelled. *)

From Stdlib Require Import ZArith Reals Lra Lia Floats.
From Stdlib Require Import Permutation Sorted Ascii String.
From stdpp Require Import gmap strings list.
From stdpp Require Import sorting.

(** ** Exceptions and results *)

Inductive exn : Type :=
  | KeyError (key : string)
  | OverflowError
  | ValueError
  | ZeroDivisionError.

Inductive result (A : Type) : Type :=
  | Ok (a : A)
  | Raise (e : exn).
Arguments Ok {A} a.
Arguments Raise {A} e.

#[global] Instance result_ret : MRet result := λ A a, Ok a.
#[global] Instance result_bind : MBind result := λ A B f m,
  match m with
  | Ok a => f a
  | Raise e => Raise e
  end.
#[global] Instance result_fmap : FMap result := λ A B f m,
  match m with
  | Ok a => Ok (f a)
  | Raise e => Raise e
  end.

(** ** The numbers of the program *)

(** What [ranker.py] asks of a number: the literals it writes, [+ - *],
    true division, [>], [!=], [abs], [math.pow(10, y)] and [int(x)].
    Division, [math.pow] and [int] can raise. *)
Class PyNum (num : Type) : Type := {
  of_int : Z → num;
  add : num → num → num;
  sub : num → num → num;
  mul : num → num → num;
  div : num → num → result num;
  gt : num → num → bool;
  ne : num → num → bool;
  py_abs : num → num;
  math_pow10 : num → result num;
  py_int : num → result Z
}.

Declare Scope py_scope.
Delimit Scope py_scope with py.
Notation "x + y" := (add x y) : py_scope.
Notation "x - y" := (sub x y) : py_scope.
Notation "x * y" := (mul x y) : py_scope.
Notation "x / y" := (div x y) : py_scope.
Notation "x >? y" := (gt x y) : py_scope.
Notation "x !=? y" := (ne x y) (at level 70) : py_scope.

(** [x < y] on numbers is [y > x]; [list.sort] compares with [<] only. *)
Definition lt {num : Type} `{!PyNum num} (x y : num) : bool := gt y x.

(** Python's [max(a, b)]: [b] when [b > a], else [a]. *)
Definition py_max {num : Type} `{!PyNum num} (a b : num) : num := if gt b a then b else a.

(** *** Exact real arithmetic *)

Module Ideal.

Definition div (x y : R) : result R :=
  if Req_dec_T y 0 then Raise ZeroDivisionError else Ok (x / y)%R.

Definition gt (x y : R) : bool := if Rlt_dec y x then true else false.

Definition ne (x y : R) : bool := if Req_dec_T x y then false else true.

(** [int(x)] truncates toward zero. *)
Definition trunc (x : R) : Z :=
  if Rle_dec 0 x then Int_part x else (- Int_part (- x))%Z.

End Ideal.

#[global] Instance ideal : PyNum R := {
  of_int := IZR;
  add := Rplus;
  sub := Rminus;
  mul := Rmult;
  div := Ideal.div;
  gt := Ideal.gt;
  ne := Ideal.ne;
  py_abs := Rabs;
  math_pow10 := λ y, Ok (Rpower 10 y);
  py_int := λ x, Ok (Ideal.trunc x)
}.

(** *** IEEE 754 binary64 *)

Module F64.

Local Open Scope Z_scope.

(** An [int] literal used as a float: the nearest double. *)
Definition of_int (z : Z) : float :=
  SF2Prim (binary_normalize prec emax z 0 false).

(** Float division: [ZeroDivisionError] on a zero divisor (either sign). *)
Definition div (x y : float) : result float :=
  if PrimFloat.eqb y 0 then Raise ZeroDivisionError
  else Ok (PrimFloat.div x y).

Definition gt (x y : float) : bool := PrimFloat.ltb y x.

Definition ne (x y : float) : bool := negb (PrimFloat.eqb x y).

(** [int(x)]: truncation toward zero; NaN and the infinities raise. *)
Definition trunc (x : float) : result Z :=
  match Prim2SF x with
  | S754_nan => Raise ValueError
  | S754_infinity _ => Raise OverflowError
  | S754_zero _ => Ok 0
  | S754_finite s m e =>
      let a := if 0 <=? e then Z.pos m * 2 ^ e
               else Z.shiftr (Z.pos m) (- e) in
      Ok (if s then - a else a)
  end.

(** **** [math.pow(10, y)]

    C's [pow] is a library function; it is modelled as the correctly
    rounded power. For [|y| = n + f] with [n] an integer and
    [f = 0.b1 b2 ...] in binary, [10^|y|] is [10^n] times the product of
    the [10^(2^-i)] with [b_i = 1]; these are iterated square roots of 10,
    taken in fixed point with [pow_bits] fractional bits. The quotient is
    then rounded once, to nearest even, through a sticky bit. *)

Definition pow_bits : Z := 256.
Definition fix_one : Z := 2 ^ pow_bits.

(** [r] is [10^(2^-(i-1))] and [acc] the product so far, both scaled by
    [fix_one]; [F] holds the [s] fraction bits. *)
Fixpoint frac_pow10 (n : nat) (i : Z) (F s r acc : Z) : Z :=
  match n with
  | O => acc
  | S n' =>
      let r' := Z.sqrt (r * fix_one) in
      let acc' := if Z.testbit F (s - i) then (acc * r') / fix_one
                  else acc in
      frac_pow10 n' (i + 1) F s r' acc'
  end.

(** The double nearest to [a / b], for [a, b > 0]. *)
Definition round_ratio (a b : Z) : spec_float :=
  let k := 80 + Z.log2 b - Z.log2 a in
  let a' := if 0 <=? k then a * 2 ^ k else a in
  let b' := if 0 <=? k then b else b * 2 ^ (- k) in
  let q := a' / b' in
  let sticky := if a' mod b' =? 0 then 0 else 1 in
  binary_normalize prec emax (2 * q + sticky) (- k - 1) false.

Definition pow10_finite (neg : bool) (m : positive) (e : Z) : spec_float :=
  let n := if 0 <=? e then Z.pos m * 2 ^ e else Z.shiftr (Z.pos m) (- e) in
  let F := if 0 <=? e then 0 else Z.land (Z.pos m) (Z.ones (- e)) in
  let t := frac_pow10 300 1 F (- e) (10 * fix_one) fix_one in
  let a := 10 ^ n * t in
  if neg then round_ratio fix_one a else round_ratio a fix_one.

(** CPython's [math.pow]: NaN and infinite exponents follow C99 and do not
    raise; a finite exponent whose power overflows raises [OverflowError]
    ("math range error"); underflow is silent. *)
Definition pow10 (y : float) : result float :=
  match Prim2SF y with
  | S754_nan => Ok nan
  | S754_zero _ => Ok 1%float
  | S754_infinity false => Ok infinity
  | S754_infinity true => Ok 0%float
  | S754_finite neg m e =>
      if PrimFloat.leb 400 (PrimFloat.abs y)
      then (if neg then Ok 0%float else Raise OverflowError)
      else match pow10_finite neg m e with
           | S754_infinity _ => Raise OverflowError
           | r => Ok (SF2Prim r)
           end
  end.

End F64.

#[global] Instance binary64 : PyNum float := {
  of_int := F64.of_int;
  add := PrimFloat.add;
  sub := PrimFloat.sub;
  mul := PrimFloat.mul;
  div := F64.div;
  gt := F64.gt;
  ne := F64.ne;
  py_abs := PrimFloat.abs;
  math_pow10 := F64.pow10;
  py_int := F64.trunc
}.

(** ** The data of a theme *)

(** One entry of [<theme>_ratings.json]. *)
Record RatingRecord (num : Type) : Type := {
  rating : num;
  plays : Z;
  wins : Z;
  losses : Z;
  date_added : string;
  biggest_win : num;
  lowest_loss : num
}.
Arguments rating {num} _.
Arguments plays {num} _.
Arguments wins {num} _.
Arguments losses {num} _.
Arguments date_added {num} _.
Arguments biggest_win {num} _.
Arguments lowest_loss {num} _.

(** The rating table: the [dict] that [json.load] returns. *)
Abbreviation Ratings num := (gmap string (RatingRecord num)).

(** A completed [json.dump]. *)
Inductive WriteEvent (num : Type) : Type :=
  | WriteItems (theme : string) (items : list string)
  | WriteRatings (theme : string) (ratings : Ratings num).
Arguments WriteItems {num} theme items.
Arguments WriteRatings {num} theme ratings.

(** What the program sees of the outside: the documents under [themes/],
    keyed by theme, the writes it has made so far, in order, and the clock:
    [clock n] is the [n]-th reading of [datetime.now().isoformat()]. *)
Record World (num : Type) : Type := {
  items_files : gmap string (list string);
  ratings_files : gmap string (Ratings num);
  writes : list (WriteEvent num);
  clock : nat → string;
  ticks : nat
}.
Arguments items_files {num} _.
Arguments ratings_files {num} _.
Arguments writes {num} _.
Arguments clock {num} _.
Arguments ticks {num} _.

(** One line of the ranking display: the item, its rating and the number of
    dashes printed under it. *)
Record Ranked (num : Type) : Type := {
  ranked_item : string;
  ranked_rating : num;
  dash_count : Z
}.
Arguments ranked_item {num} _.
Arguments ranked_rating {num} _.
Arguments dash_count {num} _.

Section Ranker.

Context {num : Type} `{!PyNum num}.

Local Open Scope Z_scope.

(** *** Persistence *)

Definition load_items (theme : string) (w : World num) : list string :=
  default [] (items_files w !! theme).

Definition save_items (theme : string) (items : list string)
    (w : World num) : World num :=
  {| items_files := <[theme := items]> (items_files w);
     ratings_files := ratings_files w;
     writes := writes w ++ [WriteItems theme items];
     clock := clock w;
     ticks := ticks w |}.

Definition load_ratings (theme : string) (w : World num) : Ratings num :=
  default ∅ (ratings_files w !! theme).

Definition save_ratings (theme : string) (ratings : Ratings num)
    (w : World num) : World num :=
  {| items_files := items_files w;
     ratings_files := <[theme := ratings]> (ratings_files w);
     writes := writes w ++ [WriteRatings theme ratings];
     clock := clock w;
     ticks := ticks w |}.

(** *** [initialize_ratings] *)

Definition new_record (now : string) : RatingRecord num :=
  {| rating := of_int 1000;
     plays := 0;
     wins := 0;
     losses := 0;
     date_added := now;
     biggest_win := of_int 0;
     lowest_loss := of_int 0 |}.

(** The state of the loop: the table, the [updated] flag and the number of
    clock readings made. *)
Record InitLoop : Type := {
  loop_ratings : Ratings num;
  loop_updated : bool;
  loop_ticks : nat
}.

(** One iteration of [for item in items]. *)
Definition init_item (now : nat → string) (st : InitLoop) (item : string)
    : InitLoop :=
  match loop_ratings st !! item with
  | Some _ => st
  | None =>
      {| loop_ratings :=
           <[item := new_record (now (loop_ticks st))]> (loop_ratings st);
         loop_updated := true;
         loop_ticks := S (loop_ticks st) |}
  end.

Definition set_ticks (n : nat) (w : World num) : World num :=
  {| items_files := items_files w;
     ratings_files := ratings_files w;
     writes := writes w;
     clock := clock w;
     ticks := n |}.

Definition initialize_ratings (theme : string) (items : list string)
    (w : World num) : Ratings num * World num :=
  let ratings := load_ratings theme w in
  let st := foldl (init_item (clock w))
              {| loop_ratings := ratings;
                 loop_updated := false;
                 loop_ticks := ticks w |} items in
  let w' := set_ticks (loop_ticks st) w in
  if loop_updated st
  then (loop_ratings st, save_ratings theme (loop_ratings st) w')
  else (loop_ratings st, w').

(** *** [calculate_elo_change] *)

Definition calculate_elo_change (winner_rating loser_rating k : num)
    : result (num * num) :=
  e_winner ← ((loser_rating - winner_rating) / of_int 400)%py;
  p_winner ← math_pow10 e_winner;
  expected_winner ← (of_int 1 / (of_int 1 + p_winner))%py;
  e_loser ← ((winner_rating - loser_rating) / of_int 400)%py;
  p_loser ← math_pow10 e_loser;
  expected_loser ← (of_int 1 / (of_int 1 + p_loser))%py;
  let winner_change := (k * (of_int 1 - expected_winner))%py in
  let loser_change := (k * (of_int 0 - expected_loser))%py in
  mret (winner_change, loser_change).

(** *** [update_ratings] *)

(** [ratings[key]]: a missing key raises [KeyError]. *)
Definition getitem (ratings : Ratings num) (key : string)
    : result (RatingRecord num) :=
  match ratings !! key with
  | Some r => Ok r
  | None => Raise (KeyError key)
  end.

(** [ratings[key][field] = ...], through [f] on the record. *)
Definition setfield (key : string)
    (f : RatingRecord num → RatingRecord num) (ratings : Ratings num)
    : result (Ratings num) :=
  r ← getitem ratings key;
  mret (<[key := f r]> ratings).

Definition add_rating (d : num) (r : RatingRecord num) : RatingRecord num :=
  {| rating := (rating r + d)%py; plays := plays r; wins := wins r;
     losses := losses r; date_added := date_added r;
     biggest_win := biggest_win r; lowest_loss := lowest_loss r |}.

Definition incr_plays (r : RatingRecord num) : RatingRecord num :=
  {| rating := rating r; plays := plays r + 1; wins := wins r;
     losses := losses r; date_added := date_added r;
     biggest_win := biggest_win r; lowest_loss := lowest_loss r |}.

Definition incr_wins (r : RatingRecord num) : RatingRecord num :=
  {| rating := rating r; plays := plays r; wins := wins r + 1;
     losses := losses r; date_added := date_added r;
     biggest_win := biggest_win r; lowest_loss := lowest_loss r |}.

Definition incr_losses (r : RatingRecord num) : RatingRecord num :=
  {| rating := rating r; plays := plays r; wins := wins r;
     losses := losses r + 1; date_added := date_added r;
     biggest_win := biggest_win r; lowest_loss := lowest_loss r |}.

Definition set_biggest_win (d : num) (r : RatingRecord num)
    : RatingRecord num :=
  {| rating := rating r; plays := plays r; wins := wins r;
     losses := losses r; date_added := date_added r;
     biggest_win := d; lowest_loss := lowest_loss r |}.

Definition set_lowest_loss (d : num) (r : RatingRecord num)
    : RatingRecord num :=
  {| rating := rating r; plays := plays r; wins := wins r;
     losses := losses r; date_added := date_added r;
     biggest_win := biggest_win r; lowest_loss := d |}.

(** The statements of [update_ratings] on the loaded table, in order. *)
Definition updated_table (winner loser : string) (ratings : Ratings num)
    : result (Ratings num) :=
  winner_rating ← rating <$> getitem ratings winner;
  loser_rating ← rating <$> getitem ratings loser;
  '(winner_change, loser_change) ←
    calculate_elo_change winner_rating loser_rating (of_int 32);
  ratings ← setfield winner (add_rating winner_change) ratings;
  ratings ← setfield loser (add_rating loser_change) ratings;
  ratings ← setfield winner incr_plays ratings;
  ratings ← setfield winner incr_wins ratings;
  ratings ← setfield loser incr_plays ratings;
  ratings ← setfield loser incr_losses ratings;
  best ← biggest_win <$> getitem ratings winner;
  ratings ← (if (winner_change >? best)%py
             then setfield winner (set_biggest_win winner_change) ratings
             else mret ratings);
  worst ← lowest_loss <$> getitem ratings loser;
  ratings ← (if (py_abs loser_change >? worst)%py
             then setfield loser (set_lowest_loss (py_abs loser_change))
                    ratings
             else mret ratings);
  mret ratings.

Definition update_ratings (theme winner loser : string) (w : World num)
    : result (World num) :=
  ratings ← updated_table winner loser (load_ratings theme w);
  mret (save_ratings theme ratings w).

(** The choices made in [ranking_mode], one [update_ratings] each; an
    exception ends the session. *)
Fixpoint record_outcomes (theme : string)
    (outcomes : list (string * string)) (w : World num)
    : result (World num) :=
  match outcomes with
  | [] => Ok w
  | (winner, loser) :: rest =>
      w' ← update_ratings theme winner loser w;
      record_outcomes theme rest w'
  end.

(** *** [view_rankings] *)

(** The pairs [(item, rating)], 1000 standing for a missing record. *)
Definition rated (ratings : Ratings num) (item : string) : string * num :=
  match ratings !! item with
  | Some r => (item, rating r)
  | None => (item, of_int 1000)
  end.

(** [list.sort(key=lambda x: x[1], reverse=True)]. Python's sort is stable,
    also with [reverse=True], and compares keys with [<] only. As long as
    no key is a NaN, [<] is a weak order on the keys and a stable sort
    has one possible result, which this insertion sort computes: an item
    goes in front of the first line that is not greater than it. *)
Fixpoint insert_desc (x : string * num) (l : list (string * num))
    : list (string * num) :=
  match l with
  | [] => [x]
  | y :: l' => if lt (snd x) (snd y) then y :: insert_desc x l'
               else x :: y :: l'
  end.

Definition sort_desc (l : list (string * num)) : list (string * num) :=
  foldr insert_desc [] l.

(** The dashes of one line. *)
Definition dashes (rating min_rating rating_range : num) : result Z :=
  if (rating_range >? of_int 0)%py
  then q ← ((of_int 49 * (rating - min_rating)) / rating_range)%py;
       py_int (of_int 1 + q)%py
  else Ok 50.

Definition rank_line (min_rating rating_range : num) (x : string * num)
    : result (Ranked num) :=
  n ← dashes (snd x) min_rating rating_range;
  mret {| ranked_item := fst x; ranked_rating := snd x; dash_count := n |}.

(** [for ... in enumerate(sorted_items)], stopping at the first exception. *)
Fixpoint rank_lines (min_rating rating_range : num)
    (l : list (string * num)) : result (list (Ranked num)) :=
  match l with
  | [] => Ok []
  | x :: l' =>
      line ← rank_line min_rating rating_range x;
      lines ← rank_lines min_rating rating_range l';
      mret (line :: lines)
  end.

(** Lines 213 to 221: the pairs of the theme's items, sorted. *)
Definition sorted_items (theme : string) (w : World num)
    : list (string * num) :=
  sort_desc (rated (load_ratings theme w) <$> load_items theme w).

(** The lines [view_rankings] prints, and the world it leaves. *)
Definition view_rankings (theme : string) (w : World num)
    : result (list (Ranked num) * World num) :=
  match sorted_items theme w with
  | [] => Ok ([], w)
  | top :: rest =>
      let max_rating := snd top in
      let min_rating := snd (List.last rest top) in
      let rating_range := if (max_rating !=? min_rating)%py
                          then (max_rating - min_rating)%py
                          else of_int 1 in
      lines ← rank_lines min_rating rating_range (top :: rest);
      mret (lines, w)
  end.

(** *** Vocabulary of the specification *)

(** The winner's and the loser's record after an outcome with deltas [d],
    field by field as the specification lists the updates. *)
Definition won (r : RatingRecord num) (d : num) : RatingRecord num :=
  {| rating := (rating r + d)%py;
     plays := plays r + 1;
     wins := wins r + 1;
     losses := losses r;
     date_added := date_added r;
     biggest_win := py_max (biggest_win r) d;
     lowest_loss := lowest_loss r |}.

Definition lost (r : RatingRecord num) (d : num) : RatingRecord num :=
  {| rating := (rating r + d)%py;
     plays := plays r + 1;
     wins := wins r;
     losses := losses r + 1;
     date_added := date_added r;
     biggest_win := biggest_win r;
     lowest_loss := py_max (lowest_loss r) (py_abs d) |}.

(** [plays == wins + losses]. *)
Definition consistent (r : RatingRecord num) : Prop :=
  plays r = wins r + losses r.

(** [x == x]: every number but a NaN. *)
Definition not_nan (x : num) : Prop := (x !=? x)%py = false.

(** Neither rating is greater than the other. *)
Definition tied (a b : num) : bool := negb (a >? b)%py && negb (b >? a)%py.

(** No line is followed by a line of greater rating. *)
Definition descending (l : list (string * num)) : Prop :=
  StronglySorted (λ x y, (snd y >? snd x)%py = false) l.

(** A statistic that did not decrease: it is what it was, or greater. *)
Definition not_decreased (old new : num) : Prop :=
  new = old ∨ (new >? old)%py = true.

(** What a line shows of an item. *)
Definition shown (line : Ranked num) : string * num :=
  (ranked_item line, ranked_rating line).

End Ranker.

(** ** Writing a document: [with open(path, 'w') as f: json.dump(doc, f, indent=2)]

    [save_items] and [save_ratings] above replace a document in one step,
    which is what a caller sees once they return. Below is what happens to
    the file on the way: [open(path, 'w')] truncates it, [json.dump] writes
    the text chunk by chunk into the file object, and leaving the [with]
    block, normally or through an exception, flushes and closes it. *)

Module Files.

Definition quote : string := String "034"%char EmptyString.
Definition newline : string := String "010"%char EmptyString.

(** *** [json.encoder]: strings ([ensure_ascii=True]) *)

Definition hex_digit (n : N) : ascii :=
  ascii_of_N (if (n <? 10)%N then 48 + n else 87 + n).

(** [\uXXXX] for a code point below 256. *)
Definition u_escape (n : N) : string :=
  "\u00" +:+ String (hex_digit (n / 16))
              (String (hex_digit (n mod 16)) EmptyString).

Definition escape (c : ascii) : string :=
  let n := N_of_ascii c in
  if (n =? 34)%N then "\" +:+ quote
  else if (n =? 92)%N then "\\"
  else if (n =? 10)%N then "\n"
  else if (n =? 13)%N then "\r"
  else if (n =? 9)%N then "\t"
  else if (n =? 8)%N then "\b"
  else if (n =? 12)%N then "\f"
  else if ((32 <=? n) && (n <=? 126))%N then String c EmptyString
  else u_escape n.

Fixpoint escape_all (s : string) : string :=
  match s with
  | EmptyString => EmptyString
  | String c s' => escape c +:+ escape_all s'
  end.

Definition encode_basestring_ascii (s : string) : string :=
  quote +:+ escape_all s +:+ quote.

(** *** [json.encoder]: the chunks of a list of strings at [indent=2] *)

Fixpoint item_chunks (buf : string) (items : list string) : list string :=
  match items with
  | [] => []
  | value :: rest =>
      (buf +:+ encode_basestring_ascii value)
        :: item_chunks ("," +:+ newline +:+ "  ") rest
  end.

Definition iterencode_list (items : list string) : list string :=
  match items with
  | [] => ["[]"]
  | _ => item_chunks ("[" +:+ newline +:+ "  ") items ++ [newline; "]"]
  end.

(** *** The file system *)

Record Handle : Type := {
  handle_path : string;
  handle_buffer : string
}.

(** The text of each file, and the file object open for writing, if any. *)
Record FS : Type := {
  disk : gmap string string;
  open_file : option Handle
}.

Inductive file_op : Type :=
  | OpenW (path : string)
  | WriteChunk (chunk : string)
  | Close.

Definition exec (fs : FS) (op : file_op) : FS :=
  match op with
  | OpenW path =>
      {| disk := <[path := EmptyString]> (disk fs);
         open_file := Some {| handle_path := path;
                              handle_buffer := EmptyString |} |}
  | WriteChunk chunk =>
      match open_file fs with
      | Some h =>
          {| disk := disk fs;
             open_file := Some {| handle_path := handle_path h;
                                  handle_buffer :=
                                    handle_buffer h +:+ chunk |} |}
      | None => fs
      end
  | Close =>
      match open_file fs with
      | Some h =>
          {| disk := <[handle_path h := handle_buffer h]> (disk fs);
             open_file := None |}
      | None => fs
      end
  end.

(** The operations of one [with open ...: json.dump ...]. *)
Definition dump_ops (path : string) (chunks : list string) : list file_op :=
  OpenW path :: (WriteChunk <$> chunks) ++ [Close].

(** The block runs to its end. *)
Definition completed (ops : list file_op) (fs : FS) : FS :=
  foldl exec fs ops.

(** An exception (a [KeyboardInterrupt], say) arrives when [k] operations
    are done; the [with] statement closes the file on the way out. *)
Definition interrupted (k : nat) (ops : list file_op) (fs : FS) : FS :=
  exec (foldl exec fs (take k ops)) Close.

Definition items_path (theme : string) : string :=
  "themes/" +:+ theme +:+ "_items.json".

Definition ratings_path (theme : string) : string :=
  "themes/" +:+ theme +:+ "_ratings.json".

Definition save_items (theme : string) (items : list string)
    : list file_op :=
  dump_ops (items_path theme) (iterencode_list items).

(** [chunks] stands for [json.encoder]'s chunks of the rating table. *)
Definition save_ratings (theme : string) (chunks : list string)
    : list file_op :=
  dump_ops (ratings_path theme) chunks.

Definition text (chunks : list string) : string :=
  foldr String.append EmptyString chunks.

End Files.


(** ** Laws of the comparison *)

(** [>] is a strict order. It is one on the reals and on the doubles, NaN
    included (a NaN is greater than nothing and nothing is greater than it). *)
Class GtOrder (num : Type) `{!PyNum num} : Prop := {
  gt_irrefl : ∀ a : num, (a >? a)%py = false;
  gt_trans : ∀ a b c : num,
    (a >? b)%py = true → (b >? c)%py = true → (a >? c)%py = true
}.

(** Away from NaN the order is a weak order, which is what makes "the"
    stably sorted list well defined, and the default rating is a number. *)
Class GtWeakOrder (num : Type) `{!PyNum num} : Prop := {
  gt_weak_strict :: GtOrder num;
  gt_cotrans : ∀ a b c : num,
    not_nan b → (a >? c)%py = true → (a >? b)%py = true ∨ (b >? c)%py = true;
  default_rating_not_nan : not_nan (of_int 1000 : num)
}.

(** ** Worked sessions *)

Module Session.

(** A theme [t] with two items and no rating table yet (binary64). *)
Definition fresh : World float :=
  {| items_files := {[ "t" := ["X"; "Y"] ]};
     ratings_files := ∅;
     writes := [];
     clock := λ n, "2024-01-01T00:00:00";
     ticks := 0 |}.

(** After [ranking_mode] has initialised the ratings. *)
Definition started : World float :=
  snd (initialize_ratings "t" ["X"; "Y"] fresh).

(** Five choices: X, X, Y, Y, X. *)
Definition five_games : list (string * string) :=
  [("X", "Y"); ("X", "Y"); ("Y", "X"); ("Y", "X"); ("X", "Y")].

(** The world they leave. *)
Definition finished : World float :=
  match record_outcomes "t" five_games started with
  | Ok w => w
  | Raise _ => started
  end.

(** A record as [initialize_ratings] makes it, at another rating. *)
Definition record_of {num : Type} `{!PyNum num} (x : num)
    : RatingRecord num :=
  {| rating := x; plays := 0; wins := 0; losses := 0;
     date_added := "2024-01-01T00:00:00";
     biggest_win := of_int 0; lowest_loss := of_int 0 |}.

(** A rating table as a file can hold it: [a] at 0, [b] at 123600. *)
Definition far_apart : World float :=
  {| items_files := {[ "t" := ["a"; "b"] ]};
     ratings_files :=
       {[ "t" := {[ "a" := record_of 0%float; "b" := record_of 123600%float ]} ]};
     writes := [];
     clock := λ n, "2024-01-01T00:00:00";
     ticks := 0 |}.

(** Three items of the theme, [B] without a record yet, in both
    arithmetics. *)
Definition three {num : Type} `{!PyNum num} : World num :=
  {| items_files := {[ "t" := ["C"; "A"; "B"] ]};
     ratings_files :=
       {[ "t" := {[ "A" := record_of (of_int 1200);
                    "C" := record_of (of_int 800) ]} ]};
     writes := [];
     clock := λ n, "2024-01-01T00:00:00";
     ticks := 0 |}.

(** Four items, [B] and [D] without a record, so tied at 1000. *)
Definition with_ties : World float :=
  {| items_files := {[ "t" := ["C"; "B"; "A"; "D"] ]};
     ratings_files :=
       {[ "t" := {[ "A" := record_of 1200%float;
                    "C" := record_of 800%float ]} ]};
     writes := [];
     clock := λ n, "2024-01-01T00:00:00";
     ticks := 0 |}.

End Session.

(** ** The functions that talk to the user

    [create_theme], [add_items_to_theme] and [ranking_mode] read lines
    with [input] and, for [ranking_mode], draw items with
    [random.sample]. Here the lines and the draws are given: a function
    takes the lines still to be read and returns the ones it left. When
    [input] finds nothing to read it raises [EOFError], which none of the
    three catches. Strings are sequences of code points below 256. *)

Module Str.

(** [str.isspace] on one character. *)
Definition isspace (c : ascii) : bool :=
  let n := N_of_ascii c in
  ((9 <=? n) && (n <=? 13) || (28 <=? n) && (n <=? 32)
   || (n =? 133) || (n =? 160))%N.

Fixpoint lstrip (s : string) : string :=
  match s with
  | EmptyString => EmptyString
  | String c s' => if isspace c then lstrip s' else s
  end.

Fixpoint rstrip (s : string) : string :=
  match s with
  | EmptyString => EmptyString
  | String c s' =>
      match rstrip s' with
      | EmptyString => if isspace c then EmptyString
                       else String c EmptyString
      | t => String c t
      end
  end.

(** [s.strip()]. *)
Definition strip (s : string) : string := rstrip (lstrip s).

Definition lower_char (c : ascii) : ascii :=
  let n := N_of_ascii c in
  if ((65 <=? n) && (n <=? 90)
      || (192 <=? n) && (n <=? 222) && negb (n =? 215))%N
  then ascii_of_N (n + 32)
  else c.

(** [s.lower()]. *)
Fixpoint lower (s : string) : string :=
  match s with
  | EmptyString => EmptyString
  | String c s' => String (lower_char c) (lower s')
  end.

(** [s.endswith(suffix)]. *)
Fixpoint endswith (suffix s : string) : bool :=
  if String.eqb s suffix then true
  else match s with
       | EmptyString => false
       | String _ s' => endswith suffix s'
       end.

(** [s.replace(old, '')] for a non-empty [old]: the occurrences of [old]
    are removed from left to right, without overlap; [skip] counts the
    characters of an occurrence still to drop. *)
Fixpoint remove_from (skip : nat) (old s : string) : string :=
  match s with
  | EmptyString => EmptyString
  | String c s' =>
      match skip with
      | S n => remove_from n old s'
      | O => if String.prefix old s
             then remove_from (String.length old - 1) old s'
             else String c (remove_from 0 old s')
      end
  end.

Definition remove (old s : string) : string := remove_from 0 old s.

(** [old in s]. *)
Fixpoint contains (old s : string) : bool :=
  if String.prefix old s then true
  else match s with
       | EmptyString => false
       | String _ s' => contains old s'
       end.

End Str.

(** How a function that reads lines ended: by returning, or in the
    [EOFError] of an [input] with nothing left to read. *)
Inductive ending : Type :=
  | Returned
  | EndOfInput.

Record Run (num : Type) : Type := {
  run_world : World num;
  run_input : list string;
  run_ending : ending
}.
Arguments run_world {num} _.
Arguments run_input {num} _.
Arguments run_ending {num} _.

Section Console.

Context {num : Type} `{!PyNum num}.

Local Open Scope Z_scope.

(** *** [get_themes] *)

(** The file names [f"{theme}_items.json"] and [f"{theme}_ratings.json"]
    of [load_items], [save_items], [load_ratings] and [save_ratings]. *)
Definition items_name (theme : string) : string := theme +:+ "_items.json".

Definition ratings_name (theme : string) : string :=
  theme +:+ "_ratings.json".

(** [os.listdir(themes_dir)]: one name for each document. *)
Definition listdir (w : World num) : list string :=
  (items_name <$> (map_to_list (items_files w)).*1)
  ++ (ratings_name <$> (map_to_list (ratings_files w)).*1).

Definition get_themes (w : World num) : list string :=
  let items_files := List.filter (Str.endswith "_items.json") (listdir w) in
  let themes := Str.remove "_items.json" <$> items_files in
  merge_sort String.le themes.

(** *** [add_items_to_theme] *)

(** The [while True] loop over the lines typed: the item list and the new
    items when an empty line ends it, nothing when [input] raises. *)
Fixpoint add_items_loop (lines items new_items : list string)
    : option (list string * list string * list string) :=
  match lines with
  | [] => None
  | line :: lines =>
      let item := Str.strip line in
      if String.eqb item EmptyString then Some (items, new_items, lines)
      else if (100 <? String.length item)%nat
      then add_items_loop lines items new_items
      else if bool_decide (item ∈ items)
      then add_items_loop lines items new_items
      else add_items_loop lines (items ++ [item]) (new_items ++ [item])
  end.

(** What the loop lets through: a stripped line that is not empty and has
    at most 100 characters. *)
Definition accepted (lines : list string) (item : string) : Prop :=
  item ≠ EmptyString ∧ (String.length item ≤ 100)%nat
  ∧ Str.strip item = item ∧ ∃ line, line ∈ lines ∧ item = Str.strip line.

Definition add_items_to_theme (theme : string) (lines : list string)
    (w : World num) : Run num :=
  match add_items_loop lines (load_items theme w) [] with
  | None => {| run_world := w; run_input := []; run_ending := EndOfInput |}
  | Some (items, new_items, lines) =>
      match new_items with
      | [] => {| run_world := w; run_input := lines;
                 run_ending := Returned |}
      | _ =>
          let w := save_items theme items w in
          {| run_world := snd (initialize_ratings theme items w);
             run_input := lines;
             run_ending := Returned |}
      end
  end.

(** *** [create_theme] *)

(** The [World] keeps the documents of [themes/] by theme name. That is
    what the directory holds as long as [f"{theme}_items.json"] and
    [f"{theme}_ratings.json"] are names of entries of [themes/]: the theme
    name has no [/] and no NUL, and the longer of the two names has at
    most 255 bytes in UTF-8 (NAME_MAX on Linux). The themes [get_themes]
    returns come from entries of the directory. [create_theme] is the one
    function that passes on a name as it was typed: with such a name
    [os.path.join] and [open] can reach a file outside [themes/], the file
    of another theme ([./t]) or fail ([a/b]), and the model does not follow
    them there. *)
Definition utf8_length (s : string) : nat :=
  length (List.filter (λ c, (128 <=? N_of_ascii c)%N) (list_ascii_of_string s))
  + String.length s.

Definition plain_name (name : string) : bool :=
  negb (Str.contains "/" name)
  && negb (Str.contains (String "000"%char EmptyString) name)
  && (utf8_length name + 13 <=? 255)%nat.

(** [None]: the name typed is not a plain name and does not pass for a
    theme that is there, so [save_items] opens a path the model does not
    follow. *)
Definition create_theme (lines : list string) (w : World num)
    : option (Run num) :=
  match lines with
  | [] => Some {| run_world := w; run_input := [];
                  run_ending := EndOfInput |}
  | line :: lines =>
      let theme_name := Str.lower (Str.strip line) in
      if String.eqb theme_name EmptyString
      then Some {| run_world := w; run_input := lines;
                   run_ending := Returned |}
      else if bool_decide (theme_name ∈ get_themes w)
      then Some {| run_world := w; run_input := lines;
                   run_ending := Returned |}
      else if negb (plain_name theme_name) then None
      else
        let w := save_items theme_name [] w in
        let w := save_ratings theme_name ∅ w in
        match lines with
        | [] => Some {| run_world := w; run_input := [];
                        run_ending := EndOfInput |}
        | answer :: lines =>
            if String.eqb (Str.lower (Str.strip answer)) "y"
            then Some (add_items_to_theme theme_name lines w)
            else Some {| run_world := w; run_input := lines;
                         run_ending := Returned |}
        end
  end.

(** *** [ranking_mode] *)

(** One round: the two items [random.sample] drew and the line typed. *)
Record Round : Type := {
  left_item : string;
  right_item : string;
  answer : string
}.

(** What [random.sample(items, 2)] can return: the items at two different
    positions of the list. *)
Definition drawn (items : list string) (r : Round) : Prop :=
  ∃ i j : nat, i ≠ j ∧ items !! i = Some (left_item r)
               ∧ items !! j = Some (right_item r).

(** The [while True] loop over the rounds given; it stops at [q]. The
    world returned is the one the last round given leaves. *)
Fixpoint ranking_loop (theme : string) (rounds : list Round) (w : World num)
    : result (World num) :=
  match rounds with
  | [] => Ok w
  | r :: rounds =>
      let choice := Str.lower (Str.strip (answer r)) in
      if String.eqb choice "q" then Ok w
      else if String.eqb choice "<"
      then w' ← update_ratings theme (left_item r) (right_item r) w;
           ranking_loop theme rounds w'
      else if String.eqb choice ">"
      then w' ← update_ratings theme (right_item r) (left_item r) w;
           ranking_loop theme rounds w'
      else ranking_loop theme rounds w
  end.

Definition ranking_mode (theme : string) (rounds : list Round)
    (w : World num) : result (World num) :=
  let items := load_items theme w in
  if (length items <? 2)%nat then Ok w
  else
    let w := snd (initialize_ratings theme items w) in
    ranking_loop theme rounds w.

(** *** Totals over a table *)

(** The sum of a counter over the records of a table. *)
Definition total (f : RatingRecord num → Z) (ratings : Ratings num) : Z :=
  map_fold (λ _ r acc, f r + acc) 0 ratings.

(** The rounds of a session that were decided: those answered [<] or [>]
    before the first [q]. *)
Fixpoint decided (rounds : list Round) : nat :=
  match rounds with
  | [] => O
  | r :: rounds =>
      let choice := Str.lower (Str.strip (answer r)) in
      if String.eqb choice "q" then O
      else if String.eqb choice "<" || String.eqb choice ">"
      then S (decided rounds)
      else decided rounds
  end.

End Console.

(** The sum of the ratings of a table, in exact arithmetic. *)
Definition total_rating (ratings : Ratings R) : R :=
  map_fold (λ _ r acc, (rating r + acc)%R) 0%R ratings.

(** The exceptions of the arithmetic: a division raises
    [ZeroDivisionError] and nothing else, [math.pow] raises
    [OverflowError] and nothing else. *)
Class ArithmeticErrors (num : Type) `{!PyNum num} : Prop := {
  div_raises : ∀ (x y : num) e, (x / y)%py = Raise e → e = ZeroDivisionError;
  pow_raises : ∀ (y : num) e, math_pow10 y = Raise e → e = OverflowError
}.

(** ** Worked sessions at the console *)

Module Play.

(** [Session.started] after one game, X beating Y (binary64). *)
Definition after_one : World float :=
  match update_ratings "t" "X" "Y" Session.started with
  | Ok w => w
  | Raise _ => Session.started
  end.

(** Five rounds on the theme of [Session.fresh]: two are decided, one is
    answered with nothing of use, and the fourth ends the session. *)
Definition rounds : list Round :=
  [ {| left_item := "X"; right_item := "Y"; answer := "<" |};
    {| left_item := "Y"; right_item := "X"; answer := " > " |};
    {| left_item := "X"; right_item := "Y"; answer := "x" |};
    {| left_item := "Y"; right_item := "X"; answer := "Q" |};
    {| left_item := "X"; right_item := "Y"; answer := "<" |} ].

(** The world they leave. *)
Definition played : World float :=
  match ranking_mode "t" rounds Session.fresh with
  | Ok w => w
  | Raise _ => Session.fresh
  end.

(** What is typed to create a theme and give it two items. *)
Definition typed : list string :=
  ["  Films "; "Y"; "Alien"; " Brazil "; "Alien"; EmptyString; "1"].

(** The run of [create_theme] on these lines. *)
Definition created : Run float :=
  match create_theme typed Session.fresh with
  | Some run => run
  | None => {| run_world := Session.fresh; run_input := [];
               run_ending := EndOfInput |}
  end.

(** Rounds and games on the theme of [Session.three]. *)
Definition rounds_three : list Round :=
  [ {| left_item := "A"; right_item := "B"; answer := "<" |};
    {| left_item := "C"; right_item := "A"; answer := ">" |};
    {| left_item := "B"; right_item := "C"; answer := "q" |} ].

Definition games_three : list (string * string) :=
  [("A", "C"); ("C", "A")].

End Play.

(** * Properties *)

(** Lookups through a stack of inserts. *)
Ltac lookup_inserts :=
  repeat first
    [ rewrite lookup_insert_eq
    | rewrite lookup_insert_ne by done ].

(** Two tables with the same lookups are the same result. *)
Lemma Ok_map_eq {A : Type} (m1 m2 : gmap string A) :
  (∀ k, m1 !! k = m2 !! k) → Ok m1 = Ok m2.
Proof. intros Hk. f_equal. by apply map_eq. Qed.

Section RankerFacts.

Context {num : Type} `{!PyNum num}.

Local Open Scope Z_scope.

(** ** [update_ratings] on two distinct rated items *)

Lemma getitem_Some (ratings : Ratings num) key r :
  ratings !! key = Some r → getitem ratings key = Ok r.
Proof. unfold getitem. by intros ->. Qed.

Lemma getitem_None (ratings : Ratings num) key :
  ratings !! key = None → getitem ratings key = Raise (KeyError key).
Proof. unfold getitem. by intros ->. Qed.

Lemma setfield_Some (ratings : Ratings num) key f r :
  ratings !! key = Some r →
  setfield key f ratings = Ok (<[key := f r]> ratings).
Proof. unfold setfield. intros H. by rewrite (getitem_Some _ _ _ H). Qed.

Lemma updated_table_distinct winner loser (ratings : Ratings num)
    rw rl wd ld :
  winner ≠ loser →
  ratings !! winner = Some rw →
  ratings !! loser = Some rl →
  calculate_elo_change (rating rw) (rating rl) (of_int 32) = Ok (wd, ld) →
  updated_table winner loser ratings
  = Ok (<[loser := lost rl ld]> (<[winner := won rw wd]> ratings)).
Proof.
  intros Hne Hw Hl Hc. unfold updated_table.
  rewrite (getitem_Some _ _ _ Hw), (getitem_Some _ _ _ Hl). cbn.
  rewrite Hc. cbn.
  rewrite (setfield_Some _ _ _ _ Hw). cbn.
  do 5 (erewrite setfield_Some by (lookup_inserts; eauto); cbn).
  erewrite getitem_Some by (lookup_inserts; eauto). cbn.
  unfold won, lost, py_max.
  destruct (wd >? biggest_win rw)%py eqn:Hbw; cbn;
    [erewrite setfield_Some by (lookup_inserts; eauto); cbn|];
    (erewrite getitem_Some by (lookup_inserts; eauto)); cbn;
    (destruct (py_abs ld >? lowest_loss rl)%py eqn:Hll; cbn;
     [erewrite setfield_Some by (lookup_inserts; eauto); cbn|]);
    apply Ok_map_eq; intros k;
    (destruct (decide (k = loser)) as [->|?];
     [|destruct (decide (k = winner)) as [->|?]]); by lookup_inserts.
Qed.

(** C1. For two distinct items that both have a record, [update_ratings]
    calls [calculate_elo_change] at the current ratings. If that returns,
    it adds the deltas to the two ratings, adds one play and one win to the
    winner, one play and one loss to the loser, raises the winner's
    [biggest_win] to [max(biggest_win, winner_delta)] and the loser's
    [lowest_loss] to [max(lowest_loss, abs(loser_delta))], leaves every
    other record alone, and writes the whole table once. If it raises, the
    exception is the outcome of [update_ratings]: no world comes back, so
    nothing is updated and nothing is written. *)
Theorem update_ratings_spec (theme winner loser : string) (w : World num)
    (rw rl : RatingRecord num) :
  winner ≠ loser →
  load_ratings theme w !! winner = Some rw →
  load_ratings theme w !! loser = Some rl →
  (∀ winner_delta loser_delta,
     calculate_elo_change (rating rw) (rating rl) (of_int 32)
       = Ok (winner_delta, loser_delta) →
     let table := <[loser := lost rl loser_delta]>
                    (<[winner := won rw winner_delta]>
                       (load_ratings theme w)) in
     update_ratings theme winner loser w
     = Ok {| items_files := items_files w;
             ratings_files := <[theme := table]> (ratings_files w);
             writes := writes w ++ [WriteRatings theme table];
             clock := clock w;
             ticks := ticks w |})
  ∧ (∀ e,
       calculate_elo_change (rating rw) (rating rl) (of_int 32) = Raise e →
       update_ratings theme winner loser w = Raise e).
Proof.
  intros Hne Hw Hl. split.
  - intros wd ld Hc table. unfold update_ratings.
    by rewrite (updated_table_distinct _ _ _ _ _ _ _ Hne Hw Hl Hc).
  - intros e Hc. unfold update_ratings, updated_table.
    rewrite (getitem_Some _ _ _ Hw), (getitem_Some _ _ _ Hl). cbn.
    by rewrite Hc.
Qed.

End RankerFacts.

Lemma update_ratings_spec_witness :
  let rx := new_record "2024-01-01T00:00:00" in
  (∀ winner_delta loser_delta : float,
     calculate_elo_change (rating rx) (rating rx) (of_int 32)
       = Ok (winner_delta, loser_delta) →
     let table := <[ "Y" := lost rx loser_delta]>
                    (<[ "X" := won rx winner_delta]>
                       (load_ratings "t" Session.started)) in
     update_ratings "t" "X" "Y" Session.started
     = Ok {| items_files := items_files Session.started;
             ratings_files :=
               <["t" := table]> (ratings_files Session.started);
             writes := writes Session.started ++ [WriteRatings "t" table];
             clock := clock Session.started;
             ticks := ticks Session.started |})
  ∧ (∀ e,
       calculate_elo_change (rating rx) (rating rx) (of_int 32) = Raise e →
       update_ratings "t" "X" "Y" Session.started = Raise e).
Proof.
  apply (update_ratings_spec "t" "X" "Y" Session.started
           (new_record "2024-01-01T00:00:00")
           (new_record "2024-01-01T00:00:00")).
  - done.
  - vm_compute. reflexivity.
  - vm_compute. reflexivity.
Defined.

Section InitializeFacts.

Context {num : Type} `{!PyNum num}.

Local Open Scope Z_scope.

(** ** The loop of [initialize_ratings] *)

Lemma init_loop_keeps now items (st : InitLoop) key r :
  loop_ratings st !! key = Some r →
  loop_ratings (foldl (init_item now) st items) !! key = Some r.
Proof.
  revert st. induction items as [|item items IH]; intros st Hkey; [done|].
  cbn. apply IH. unfold init_item.
  destruct (loop_ratings st !! item) eqn:Hitem; [done|]. cbn.
  rewrite lookup_insert_ne; [done|congruence].
Qed.

Lemma init_loop_elsewhere now items (st : InitLoop) key :
  key ∉ items →
  loop_ratings (foldl (init_item now) st items) !! key
  = loop_ratings st !! key.
Proof.
  revert st. induction items as [|item items IH]; intros st Hkey; [done|].
  apply not_elem_of_cons in Hkey as [Hne Hkey].
  cbn. rewrite IH by done. unfold init_item.
  destruct (loop_ratings st !! item); [done|]. cbn.
  by rewrite lookup_insert_ne.
Qed.

Lemma init_loop_creates now items (st : InitLoop) item :
  item ∈ items →
  loop_ratings st !! item = None →
  ∃ t, (loop_ticks st ≤ t)%nat ∧
       loop_ratings (foldl (init_item now) st items) !! item
       = Some (new_record (now t)).
Proof.
  revert st. induction items as [|x items IH]; intros st Hin Hnone.
  { by apply elem_of_nil in Hin. }
  cbn. destruct (decide (item = x)) as [->|Hne].
  - exists (loop_ticks st). split; [done|].
    apply init_loop_keeps. unfold init_item. rewrite Hnone. cbn.
    by rewrite lookup_insert_eq.
  - apply elem_of_cons in Hin as [?|Hin]; [done|].
    destruct (IH (init_item now st x) Hin) as (t & Ht & Hlook).
    + unfold init_item. destruct (loop_ratings st !! x); [done|]. cbn.
      by rewrite lookup_insert_ne.
    + exists t. split; [|done].
      revert Ht. unfold init_item.
      destruct (loop_ratings st !! x); cbn; lia.
Qed.

Lemma init_loop_noop now items (st : InitLoop) :
  (∀ item, item ∈ items → is_Some (loop_ratings st !! item)) →
  foldl (init_item now) st items = st.
Proof.
  induction items as [|x items IH]; intros Hall; [done|]. cbn.
  assert (Hx : init_item now st x = st).
  { unfold init_item. destruct (Hall x) as [r ->]; [left|done]. }
  rewrite Hx. apply IH. intros item Hin. apply Hall. by right.
Qed.

Lemma init_loop_updated now items (st : InitLoop) item :
  item ∈ items →
  loop_ratings st !! item = None →
  loop_updated (foldl (init_item now) st items) = true.
Proof.
  assert (Hstays : ∀ l st', loop_updated st' = true →
            loop_updated (foldl (init_item now) st' l) = true).
  { induction l as [|y l IHl]; intros st' Hst'; [done|]. cbn. apply IHl.
    unfold init_item. by destruct (loop_ratings st' !! y). }
  revert st. induction items as [|x items IH]; intros st Hin Hnone.
  { by apply elem_of_nil in Hin. }
  cbn. destruct (loop_ratings st !! x) eqn:Hx.
  - apply IH.
    + apply elem_of_cons in Hin as [->|Hin]; [congruence|done].
    + unfold init_item. by rewrite Hx.
  - apply Hstays. unfold init_item. by rewrite Hx.
Qed.

Lemma init_loop_covers now items (st : InitLoop) item :
  item ∈ items →
  is_Some (loop_ratings (foldl (init_item now) st items) !! item).
Proof.
  intros Hin. destruct (loop_ratings st !! item) as [r|] eqn:Hitem.
  - exists r. by apply init_loop_keeps.
  - destruct (init_loop_creates now items st item Hin Hitem) as (t & _ & ->).
    by eexists.
Qed.

Lemma set_ticks_same (w : World num) : set_ticks (ticks w) w = w.
Proof. by destruct w. Qed.

(** C4. [initialize_ratings] gives every listed item that has no record
    the record [rating=1000, plays=0, wins=0, losses=0, biggest_win=0,
    lowest_loss=0] stamped with a reading of the clock; it keeps every
    record there is and touches no other key; when nothing was missing it
    returns the table as loaded and leaves the world as it was (no write);
    when something was missing it writes the new table, once; and a second
    call with the same items returns the same table and changes nothing. *)
Theorem initialize_ratings_spec (theme : string) (items : list string)
    (w : World num) :
  let table := load_ratings theme w in
  let table' := fst (initialize_ratings theme items w) in
  let w' := snd (initialize_ratings theme items w) in
  (∀ item, item ∈ items → table !! item = None →
     ∃ t, table' !! item
          = Some {| rating := of_int 1000; plays := 0; wins := 0;
                    losses := 0; date_added := clock w t;
                    biggest_win := of_int 0; lowest_loss := of_int 0 |})
  ∧ (∀ key r, table !! key = Some r → table' !! key = Some r)
  ∧ (∀ key, key ∉ items → table' !! key = table !! key)
  ∧ ((∀ item, item ∈ items → is_Some (table !! item)) →
       table' = table ∧ w' = w)
  ∧ ((∃ item, item ∈ items ∧ table !! item = None) →
       ratings_files w' = <[theme := table']> (ratings_files w)
       ∧ writes w' = writes w ++ [WriteRatings theme table']
       ∧ items_files w' = items_files w)
  ∧ initialize_ratings theme items w' = (table', w').
Proof.
  intros table table' w'.
  set (st0 := {| loop_ratings := table; loop_updated := false;
                 loop_ticks := ticks w |}).
  set (st := foldl (init_item (clock w)) st0 items).
  assert (Hinit : initialize_ratings theme items w
                  = if loop_updated st
                    then (loop_ratings st,
                          save_ratings theme (loop_ratings st)
                            (set_ticks (loop_ticks st) w))
                    else (loop_ratings st, set_ticks (loop_ticks st) w))
    by done.
  assert (Htable' : table' = loop_ratings st).
  { unfold table'. rewrite Hinit. by destruct (loop_updated st). }
  assert (Hnoop : (∀ item, item ∈ items → is_Some (table !! item)) →
                  table' = table ∧ w' = w).
  { intros Hall. unfold table', w'. rewrite Hinit. unfold st.
    rewrite init_loop_noop by done. cbn. by rewrite set_ticks_same. }
  split_and!.
  - intros item Hin Hnone. rewrite Htable'.
    destruct (init_loop_creates (clock w) items st0 item Hin Hnone)
      as (t & _ & Hlook).
    by exists t.
  - intros key r Hkey. rewrite Htable'. by apply init_loop_keeps.
  - intros key Hkey. rewrite Htable'. unfold st.
    by rewrite init_loop_elsewhere.
  - done.
  - intros (item & Hin & Hnone). unfold w', table'. rewrite Hinit.
    unfold st. by rewrite (init_loop_updated _ _ st0 item Hin Hnone).
  - assert (Hload : load_ratings theme w' = table').
    { unfold w', table'. rewrite Hinit.
      destruct (loop_updated st) eqn:Hup; cbn.
      - unfold load_ratings. cbn. by rewrite lookup_insert_eq.
      - assert (Hall : ∀ item, item ∈ items → is_Some (table !! item)).
        { intros item Hin. destruct (table !! item) eqn:Hitem; [done|].
          pose proof (init_loop_updated (clock w) items st0 item Hin Hitem)
            as Htrue.
          fold st in Htrue. congruence. }
        destruct (Hnoop Hall) as [Ht Hw]. unfold table', w' in Ht, Hw.
        rewrite Hinit in Ht, Hw. cbn in Ht, Hw. by rewrite Hw, Ht. }
    unfold initialize_ratings at 1. rewrite Hload.
    rewrite init_loop_noop.
    + cbn. by rewrite set_ticks_same.
    + intros item Hin. cbn. rewrite Htable'. by apply init_loop_covers.
Qed.

End InitializeFacts.

Section UpdateFacts.

Context {num : Type} `{!PyNum num}.

Local Open Scope Z_scope.

(** ** [update_ratings] in general *)

(** The same item on both sides: every statement acts on the one record. *)
Lemma updated_table_same item (ratings : Ratings num) r wd ld :
  ratings !! item = Some r →
  calculate_elo_change (rating r) (rating r) (of_int 32) = Ok (wd, ld) →
  updated_table item item ratings
  = Ok (<[item := lost (won r wd) ld]> ratings).
Proof.
  intros Hr Hc. unfold updated_table.
  rewrite (getitem_Some _ _ _ Hr). cbn. rewrite Hc. cbn.
  rewrite (setfield_Some _ _ _ _ Hr). cbn.
  do 5 (erewrite setfield_Some by (lookup_inserts; eauto); cbn).
  erewrite getitem_Some by (lookup_inserts; eauto). cbn.
  unfold won, lost, py_max. cbn.
  destruct (wd >? biggest_win r)%py eqn:Hbw; cbn;
    [erewrite setfield_Some by (lookup_inserts; eauto); cbn|];
    (erewrite getitem_Some by (lookup_inserts; eauto)); cbn;
    (destruct (py_abs ld >? lowest_loss r)%py eqn:Hll; cbn;
     [erewrite setfield_Some by (lookup_inserts; eauto); cbn|]);
    rewrite ?insert_insert_eq; reflexivity.
Qed.

(** Whatever the two items, the table is the winner's update followed by
    the loser's. *)
Lemma updated_table_Ok winner loser (ratings : Ratings num) rw rl wd ld :
  ratings !! winner = Some rw →
  ratings !! loser = Some rl →
  calculate_elo_change (rating rw) (rating rl) (of_int 32) = Ok (wd, ld) →
  ∃ rl', <[winner := won rw wd]> ratings !! loser = Some rl'
         ∧ updated_table winner loser ratings
           = Ok (<[loser := lost rl' ld]> (<[winner := won rw wd]> ratings)).
Proof.
  intros Hw Hl Hc. destruct (decide (winner = loser)) as [<-|Hne].
  - exists (won rw wd). split; [by rewrite lookup_insert_eq|].
    assert (rl = rw) as -> by congruence.
    rewrite (updated_table_same _ _ _ _ _ Hw Hc).
    by rewrite insert_insert_eq.
  - exists rl. split; [by rewrite lookup_insert_ne|].
    by apply updated_table_distinct.
Qed.

(** A table comes out only if both records were there and the deltas could
    be computed. *)
Lemma updated_table_inv winner loser (ratings table' : Ratings num) :
  updated_table winner loser ratings = Ok table' →
  ∃ rw rl wd ld,
    ratings !! winner = Some rw ∧ ratings !! loser = Some rl
    ∧ calculate_elo_change (rating rw) (rating rl) (of_int 32) = Ok (wd, ld).
Proof.
  unfold updated_table, getitem.
  destruct (ratings !! winner) as [rw|]; [|done].
  destruct (ratings !! loser) as [rl|]; [|done]. cbn.
  destruct (calculate_elo_change (rating rw) (rating rl) (of_int 32))
    as [[wd ld]|] eqn:Hc; cbn; [|done].
  intros _. by exists rw, rl, wd, ld.
Qed.

Lemma update_ratings_inv theme winner loser (w w' : World num) :
  update_ratings theme winner loser w = Ok w' →
  ∃ table', updated_table winner loser (load_ratings theme w) = Ok table'
            ∧ w' = save_ratings theme table' w.
Proof.
  unfold update_ratings.
  destruct (updated_table winner loser (load_ratings theme w)) as [t|];
    [|done].
  cbn. intros [= <-]. by exists t.
Qed.

Lemma load_save_ratings theme (table : Ratings num) (w : World num) :
  load_ratings theme (save_ratings theme table w) = table.
Proof. unfold load_ratings. cbn. by rewrite lookup_insert_eq. Qed.

(** The ways [update_ratings] can end. *)
Lemma update_ratings_outcome (theme winner loser : string) (w : World num) :
  let table := load_ratings theme w in
  (table !! winner = None →
     update_ratings theme winner loser w = Raise (KeyError winner))
  ∧ (is_Some (table !! winner) → table !! loser = None →
     update_ratings theme winner loser w = Raise (KeyError loser))
  ∧ (∀ rw rl, table !! winner = Some rw → table !! loser = Some rl →
     match calculate_elo_change (rating rw) (rating rl) (of_int 32) with
     | Ok _ => ∃ w', update_ratings theme winner loser w = Ok w'
     | Raise e => update_ratings theme winner loser w = Raise e
     end).
Proof.
  intros table. unfold update_ratings. fold table. split_and!.
  - intros Hw. unfold updated_table. by rewrite (getitem_None _ _ Hw).
  - intros [rw Hw] Hl. unfold updated_table.
    by rewrite (getitem_Some _ _ _ Hw), (getitem_None _ _ Hl).
  - intros rw rl Hw Hl.
    destruct (calculate_elo_change (rating rw) (rating rl) (of_int 32))
      as [[wd ld]|e] eqn:Hc.
    + destruct (updated_table_Ok _ _ _ _ _ _ _ Hw Hl Hc) as (rl' & _ & ->).
      by eexists.
    + unfold updated_table.
      rewrite (getitem_Some _ _ _ Hw), (getitem_Some _ _ _ Hl). cbn.
      by rewrite Hc.
Qed.

(** ** The counters *)

Lemma won_lost_consistent (r : RatingRecord num) wd ld :
  consistent r → consistent (lost (won r wd) ld).
Proof. unfold consistent. cbn. lia. Qed.

Lemma new_record_consistent now : consistent (new_record (num := num) now).
Proof. reflexivity. Qed.

Lemma init_loop_consistent now items (st : InitLoop) :
  map_Forall (λ _, consistent) (loop_ratings st) →
  map_Forall (λ _, consistent) (loop_ratings (foldl (init_item now) st items)).
Proof.
  revert st. induction items as [|item items IH]; intros st Hst; [done|].
  cbn. apply IH. unfold init_item.
  destruct (loop_ratings st !! item); [done|]. cbn.
  apply map_Forall_insert_2; [apply new_record_consistent|done].
Qed.

Lemma initialize_ratings_table theme items (w : World num) :
  fst (initialize_ratings theme items w)
  = loop_ratings (foldl (init_item (clock w))
                    {| loop_ratings := load_ratings theme w;
                       loop_updated := false;
                       loop_ticks := ticks w |} items).
Proof.
  unfold initialize_ratings.
  by destruct (loop_updated (foldl _ _ _)).
Qed.

Lemma updated_table_consistent winner loser (ratings table' : Ratings num) :
  map_Forall (λ _, consistent) ratings →
  updated_table winner loser ratings = Ok table' →
  map_Forall (λ _, consistent) table'.
Proof.
  intros Hall Hup.
  destruct (updated_table_inv _ _ _ _ Hup) as (rw & rl & wd & ld & Hw & Hl & Hc).
  destruct (updated_table_Ok _ _ _ _ _ _ _ Hw Hl Hc) as (rl' & Hrl' & Heq).
  rewrite Heq in Hup. injection Hup as <-.
  assert (Hwon : consistent (won rw wd)).
  { pose proof (Hall _ _ Hw) as Hrw. unfold consistent in *. cbn. lia. }
  assert (Hmid : map_Forall (λ _, consistent) (<[winner := won rw wd]> ratings))
    by by apply map_Forall_insert_2.
  apply map_Forall_insert_2; [|done].
  pose proof (Hmid _ _ Hrl') as Hc'. unfold consistent in *. cbn. lia.
Qed.

(** C10. On a table whose records all satisfy [plays = wins + losses], the
    records [initialize_ratings] returns all do, the new ones included, and
    so do the records left by any sequence of recorded outcomes. *)
Theorem plays_is_wins_plus_losses (theme : string) (w : World num) :
  map_Forall (λ _, consistent) (load_ratings theme w) →
  (∀ items,
     map_Forall (λ _, consistent) (fst (initialize_ratings theme items w)))
  ∧ (∀ outcomes w', record_outcomes theme outcomes w = Ok w' →
     map_Forall (λ _, consistent) (load_ratings theme w')).
Proof.
  intros Hall. split.
  - intros items. rewrite initialize_ratings_table.
    by apply init_loop_consistent.
  - intros outcomes. revert w Hall.
    induction outcomes as [|[winner loser] rest IH]; intros w Hall w'; cbn.
    + by intros [= <-].
    + destruct (update_ratings theme winner loser w) as [w1|] eqn:Hw1;
        cbn; [|done].
      apply IH.
      destruct (update_ratings_inv _ _ _ _ _ Hw1) as (table' & Hup & ->).
      rewrite load_save_ratings.
      by apply (updated_table_consistent winner loser (load_ratings theme w)).
Qed.

(** ** The two records *)

Lemma not_decreased_refl (a : num) : not_decreased a a.
Proof. by left. Qed.

Lemma not_decreased_max (a b : num) : not_decreased a (py_max a b).
Proof.
  unfold not_decreased, py_max.
  destruct (b >? a)%py eqn:Hgt; [by right|by left].
Qed.

Lemma updated_table_statistics winner loser (ratings table' : Ratings num)
    item r :
  updated_table winner loser ratings = Ok table' →
  ratings !! item = Some r →
  ∃ r', table' !! item = Some r'
        ∧ not_decreased (biggest_win r) (biggest_win r')
        ∧ not_decreased (lowest_loss r) (lowest_loss r').
Proof.
  intros Hup Hitem.
  destruct (updated_table_inv _ _ _ _ Hup) as (rw & rl & wd & ld & Hw & Hl & Hc).
  destruct (updated_table_Ok _ _ _ _ _ _ _ Hw Hl Hc) as (rl' & Hrl' & Heq).
  rewrite Heq in Hup. injection Hup as <-.
  assert (Hmid : ∃ r1, <[winner := won rw wd]> ratings !! item = Some r1
            ∧ not_decreased (biggest_win r) (biggest_win r1)
            ∧ lowest_loss r1 = lowest_loss r).
  { destruct (decide (item = winner)) as [->|Hne].
    - exists (won rw wd). rewrite lookup_insert_eq.
      assert (r = rw) as -> by congruence.
      split_and!; [done|apply not_decreased_max|done].
    - exists r. rewrite lookup_insert_ne by done.
      split_and!; [done|apply not_decreased_refl|done]. }
  destruct Hmid as (r1 & Hr1 & Hbw & Hll).
  destruct (decide (item = loser)) as [->|Hne].
  - exists (lost rl' ld). rewrite lookup_insert_eq.
    assert (rl' = r1) as -> by congruence.
    split_and!; [done|done|]. cbn. rewrite <- Hll. apply not_decreased_max.
  - exists r1. rewrite lookup_insert_ne by done.
    split_and!; [done|done|]. rewrite Hll. apply not_decreased_refl.
Qed.

Context `{!GtOrder num}.

Lemma not_decreased_trans (a b c : num) :
  not_decreased a b → not_decreased b c → not_decreased a c.
Proof.
  intros [->|Hab] [->|Hbc]; [by left|by right|by right|].
  right. by apply (gt_trans c b a).
Qed.

Lemma not_decreased_not_gt (a b : num) :
  not_decreased a b → (a >? b)%py = false.
Proof.
  intros [->|Hba]; [apply gt_irrefl|].
  destruct (a >? b)%py eqn:Hab; [|done].
  pose proof (gt_trans a b a Hab Hba) as Haa.
  by rewrite gt_irrefl in Haa.
Qed.

(** C7. Over any sequence of recorded outcomes, an item's [biggest_win] and
    [lowest_loss] end up equal to or greater than what they were: neither
    is ever less than before, whatever the order of the deltas. *)
Theorem statistics_never_decrease (theme : string)
    (outcomes : list (string * string)) (w w' : World num)
    (item : string) (r : RatingRecord num) :
  record_outcomes theme outcomes w = Ok w' →
  load_ratings theme w !! item = Some r →
  ∃ r', load_ratings theme w' !! item = Some r'
        ∧ not_decreased (biggest_win r) (biggest_win r')
        ∧ (biggest_win r >? biggest_win r')%py = false
        ∧ not_decreased (lowest_loss r) (lowest_loss r')
        ∧ (lowest_loss r >? lowest_loss r')%py = false.
Proof.
  assert (Hweak : ∀ w0 r0,
    record_outcomes theme outcomes w0 = Ok w' →
    load_ratings theme w0 !! item = Some r0 →
    ∃ r', load_ratings theme w' !! item = Some r'
          ∧ not_decreased (biggest_win r0) (biggest_win r')
          ∧ not_decreased (lowest_loss r0) (lowest_loss r')).
  { induction outcomes as [|[winner loser] rest IH]; intros w0 r0; cbn.
    - intros [= <-] Hitem. exists r0.
      split_and!; [done|apply not_decreased_refl..].
    - destruct (update_ratings theme winner loser w0) as [w1|] eqn:Hw1;
        cbn; [|done].
      intros Hrest Hitem.
      destruct (update_ratings_inv _ _ _ _ _ Hw1) as (table' & Hup & ->).
      destruct (updated_table_statistics _ _ _ _ _ _ Hup Hitem)
        as (r1 & Hr1 & Hbw1 & Hll1).
      destruct (IH _ r1 Hrest) as (r' & Hr' & Hbw & Hll).
      { by rewrite load_save_ratings. }
      exists r'. split_and!; [done|by eapply not_decreased_trans..]. }
  intros Hrun Hitem.
  destruct (Hweak w r Hrun Hitem) as (r' & Hr' & Hbw & Hll).
  exists r'. split_and!; try done; by apply not_decreased_not_gt.
Qed.

End UpdateFacts.

Section SortFacts.

Context {num : Type} `{!PyNum num} `{!GtWeakOrder num}.

(** ** The sort *)

Lemma insert_desc_perm (x : string * num) l : insert_desc x l ≡ₚ x :: l.
Proof.
  induction l as [|y l IH]; [done|]. cbn.
  destruct (lt (snd x) (snd y)); [|done].
  rewrite IH. apply Permutation_swap.
Qed.

Lemma sort_desc_perm (l : list (string * num)) : sort_desc l ≡ₚ l.
Proof.
  induction l as [|x l IH]; [done|]. cbn.
  by rewrite insert_desc_perm, IH.
Qed.

Lemma gt_asym (a b : num) : (a >? b)%py = true → (b >? a)%py = false.
Proof.
  intros Hab. destruct (b >? a)%py eqn:Hba; [|done].
  pose proof (gt_trans a b a Hab Hba) as Haa. by rewrite gt_irrefl in Haa.
Qed.

Lemma insert_desc_descending (x : string * num) l :
  Forall (λ y, not_nan (snd y)) l →
  descending l → descending (insert_desc x l).
Proof.
  unfold descending. intros Hnan Hsorted.
  induction Hsorted as [|y l Hl IH Hy]; cbn.
  { repeat constructor. }
  apply Forall_cons in Hnan as [Hy_nan Hnan].
  unfold lt. destruct (snd y >? snd x)%py eqn:Hyx.
  - constructor; [by apply IH|].
    rewrite (insert_desc_perm x l). constructor; [by apply gt_asym|done].
  - constructor; [by constructor|].
    constructor; [done|].
    rewrite Forall_forall in Hy |- *. intros z Hz.
    destruct (snd z >? snd x)%py eqn:Hzx; [|done].
    destruct (gt_cotrans (snd z) (snd y) (snd x) Hy_nan Hzx) as [Hzy|Hyx'].
    + by rewrite (Hy z Hz) in Hzy.
    + by rewrite Hyx in Hyx'.
Qed.

Lemma sort_desc_descending (l : list (string * num)) :
  Forall (λ y, not_nan (snd y)) l → descending (sort_desc l).
Proof.
  induction l as [|x l IH]; intros Hnan; [constructor|].
  apply Forall_cons in Hnan as [_ Hnan].
  change (sort_desc (x :: l)) with (insert_desc x (sort_desc l)).
  apply insert_desc_descending; [|by apply IH].
  by rewrite sort_desc_perm.
Qed.

(** Stability: among the lines tied with a rating [r], the sort changes
    nothing. *)
Lemma insert_desc_tied (r : num) (x : string * num) l :
  not_nan r →
  List.filter (λ y, tied r (snd y)) (insert_desc x l)
  = List.filter (λ y, tied r (snd y)) (x :: l).
Proof.
  intros Hr. induction l as [|y l IH]; [done|].
  cbn [insert_desc]. unfold lt.
  destruct (snd y >? snd x)%py eqn:Hyx; [|done].
  cbn [List.filter] in *. rewrite IH.
  destruct (tied r (snd x)) eqn:Hx; [|done].
  assert (Hy : tied r (snd y) = false); [|by rewrite Hy].
  unfold tied in *. apply andb_true_iff in Hx as [Hrx0 Hxr].
  apply negb_true_iff in Hrx0.
  destruct (gt_cotrans (snd y) r (snd x) Hr Hyx) as [Hyr|Hrx].
  - rewrite Hyr. by rewrite andb_false_r.
  - by rewrite Hrx in Hrx0.
Qed.

Lemma sort_desc_tied (r : num) (l : list (string * num)) :
  not_nan r →
  List.filter (λ y, tied r (snd y)) (sort_desc l)
  = List.filter (λ y, tied r (snd y)) l.
Proof.
  intros Hr. induction l as [|x l IH]; [done|].
  change (sort_desc (x :: l)) with (insert_desc x (sort_desc l)).
  rewrite insert_desc_tied by done. cbn. by rewrite IH.
Qed.

(** ** The lines of [view_rankings] *)

Lemma rank_lines_shown (mn rg : num) l lines :
  rank_lines mn rg l = Ok lines → shown <$> lines = l.
Proof.
  revert lines. induction l as [|x l IH]; intros lines; cbn.
  { by intros [= <-]. }
  unfold rank_line.
  destruct (dashes (snd x) mn rg) as [n|]; cbn; [|done].
  destruct (rank_lines mn rg l) as [rest|]; cbn; [|done].
  intros [= <-]. cbn. rewrite (IH rest) by done. by destruct x.
Qed.

Lemma view_rankings_shown theme (w w' : World num) lines :
  view_rankings theme w = Ok (lines, w') →
  w' = w ∧ shown <$> lines = sorted_items theme w.
Proof.
  unfold view_rankings.
  destruct (sorted_items theme w) as [|top rest]; [by intros [= <- <-]|].
  destruct (rank_lines _ _ (top :: rest)) as [ls|] eqn:Hls; cbn; [|done].
  intros [= <- <-]. split; [done|]. by apply (rank_lines_shown _ _ _ _ Hls).
Qed.

Lemma rated_not_nan (ratings : Ratings num) (items : list string) :
  map_Forall (λ _ r, not_nan (rating r)) ratings →
  Forall (λ y, not_nan (snd y)) (rated ratings <$> items).
Proof.
  intros Hall. apply Forall_fmap, Forall_forall. intros item _.
  unfold rated. cbn. destruct (ratings !! item) as [r|] eqn:Hr; cbn.
  - by apply (Hall item).
  - apply default_rating_not_nan.
Qed.

Lemma rated_pair (ratings : Ratings num) (item : string) :
  rated ratings item
  = (item, match ratings !! item with
           | Some r => rating r
           | None => of_int 1000
           end).
Proof. unfold rated. by destruct (ratings !! item). Qed.

(** C6. The ranking holds the theme's items, each once for each time the
    list holds it, an item with a record at that record's rating and an
    item without one at 1000; it is in descending order of rating; items
    of equal rating keep the order of the item list; a theme without items
    has an empty ranking; and what [view_rankings] prints is this ranking,
    the world being left as it was (the substituted 1000 is not saved). *)
Theorem sorted_items_spec (theme : string) (w : World num) :
  map_Forall (λ _ r, not_nan (rating r)) (load_ratings theme w) →
  let items := load_items theme w in
  let table := load_ratings theme w in
  let rating_of := λ item, match table !! item with
                           | Some r => rating r
                           | None => of_int 1000
                           end in
  let keyed := (λ item, (item, rating_of item)) <$> items in
  let ranking := sorted_items theme w in
  ranking ≡ₚ keyed
  ∧ fst <$> ranking ≡ₚ items
  ∧ descending ranking
  ∧ (∀ r, not_nan r →
       List.filter (λ x, tied r (snd x)) ranking
       = List.filter (λ x, tied r (snd x)) keyed)
  ∧ (∀ item r, item ∈ items → table !! item = Some r →
       (item, rating r) ∈ ranking)
  ∧ (∀ item, item ∈ items → table !! item = None →
       (item, of_int 1000) ∈ ranking)
  ∧ (∀ item x, (item, x) ∈ ranking → item ∈ items ∧ x = rating_of item)
  ∧ (items = [] → ranking = [])
  ∧ (∀ lines w', view_rankings theme w = Ok (lines, w') →
       w' = w ∧ shown <$> lines = ranking).
Proof.
  intros Hnan items table rating_of keyed ranking.
  assert (Hkeyed : rated table <$> items = keyed).
  { unfold keyed. apply list_fmap_ext. intros _ item _. apply rated_pair. }
  unfold ranking, sorted_items. fold items table. rewrite Hkeyed.
  assert (Hperm : sort_desc keyed ≡ₚ keyed) by apply sort_desc_perm.
  split_and!.
  - done.
  - rewrite Hperm. unfold keyed. rewrite <- list_fmap_compose.
    by rewrite list_fmap_id.
  - apply sort_desc_descending. rewrite <- Hkeyed. by apply rated_not_nan.
  - intros r Hr. by apply sort_desc_tied.
  - intros item r Hin Hsome. rewrite Hperm. unfold keyed.
    apply list_elem_of_fmap. exists item. split; [|done].
    unfold rating_of. by rewrite Hsome.
  - intros item Hin Hnone. rewrite Hperm. unfold keyed.
    apply list_elem_of_fmap. exists item. split; [|done].
    unfold rating_of. by rewrite Hnone.
  - intros item x Hin. rewrite Hperm in Hin. unfold keyed in Hin.
    apply list_elem_of_fmap in Hin as (item' & [= -> ->] & Hin). done.
  - unfold keyed. by intros ->.
  - intros lines w' Hview.
    destruct (view_rankings_shown theme w w' lines Hview) as [-> Hshown].
    split; [done|]. rewrite Hshown. unfold sorted_items.
    fold items table. by rewrite Hkeyed.
Qed.

End SortFacts.

(** ** Exact real arithmetic *)

Section IdealFacts.

Local Open Scope R_scope.

Lemma ideal_gt_iff (a b : R) : gt a b = true ↔ b < a.
Proof.
  cbn. unfold Ideal.gt. destruct (Rlt_dec b a); split; (done || lra).
Qed.

Lemma ideal_gt_false (a b : R) : gt a b = false ↔ a <= b.
Proof.
  cbn. unfold Ideal.gt. destruct (Rlt_dec b a); split; (done || lra).
Qed.

Lemma ideal_ne_iff (a b : R) : ne a b = true ↔ a ≠ b.
Proof.
  cbn. unfold Ideal.ne. destruct (Req_dec_T a b); split; (done || lra).
Qed.

Lemma ideal_not_nan (a : R) : not_nan a.
Proof.
  unfold not_nan. cbn. unfold Ideal.ne. by destruct (Req_dec_T a a).
Qed.

Lemma ideal_div (a b : R) : b ≠ 0 → Ideal.div a b = Ok (a / b).
Proof. intros Hb. unfold Ideal.div. by destruct (Req_dec_T b 0). Qed.

#[global] Instance ideal_order : GtOrder R.
Proof.
  split.
  - intros a. apply ideal_gt_false. lra.
  - intros a b c. rewrite !ideal_gt_iff. lra.
Qed.

#[global] Instance ideal_weak_order : GtWeakOrder R.
Proof.
  split.
  - apply ideal_order.
  - intros a b c _. rewrite !ideal_gt_iff.
    destruct (Rlt_dec b a); [by left|right; lra].
  - apply ideal_not_nan.
Qed.

(** In exact arithmetic [calculate_elo_change] always returns, with a
    positive and a negative delta that cancel. *)
Lemma ideal_elo_change (A B : R) :
  ∃ winner_delta loser_delta,
    calculate_elo_change A B (of_int 32) = Ok (winner_delta, loser_delta)
    ∧ 0 < winner_delta ∧ loser_delta < 0
    ∧ winner_delta + loser_delta = 0.
Proof.
  set (p := Rpower 10 ((B - A) / 400)).
  assert (Hp : 0 < p) by apply exp_pos.
  assert (Hq : Rpower 10 ((A - B) / 400) = / p).
  { unfold p. rewrite <- Rpower_Ropp. f_equal. lra. }
  exists (32 * (1 - 1 / (1 + p))), (32 * (0 - 1 / (1 + / p))).
  assert (Hip : 0 < / p) by by apply Rinv_0_lt_compat.
  split_and!.
  - unfold calculate_elo_change. cbn.
    rewrite !ideal_div by lra. cbn. fold p. rewrite Hq.
    by rewrite !ideal_div by lra.
  - apply Rmult_lt_0_compat; [lra|].
    assert (1 / (1 + p) < 1); [|lra].
    apply Rmult_lt_reg_r with (1 + p); [lra|].
    replace (1 / (1 + p) * (1 + p)) with 1 by (field; lra). lra.
  - assert (0 < 1 / (1 + / p)); [|lra].
    unfold Rdiv. apply Rmult_lt_0_compat; [lra|].
    apply Rinv_0_lt_compat. lra.
  - field. split; lra.
Qed.

(** Equal ratings, in exact arithmetic: the deltas are 16 and -16. *)
Lemma ideal_elo_change_equal (x : R) :
  calculate_elo_change x x (of_int 32) = Ok (16, -16).
Proof.
  unfold calculate_elo_change. cbn.
  rewrite !ideal_div by lra. cbn.
  replace ((x - x) / 400) with 0 by lra.
  rewrite Rpower_O by lra.
  rewrite !ideal_div by lra. cbn. do 2 f_equal; lra.
Qed.


(** C8. [update_ratings] looks the winner up first and the loser second; a
    missing record raises [KeyError] for that item, and no world comes
    back, so nothing is written. When both records are there the call
    returns exactly when [calculate_elo_change] does at the two ratings,
    and otherwise passes its exception on; in exact arithmetic it always
    returns. *)
Theorem update_ratings_errors :
  (∀ (num : Type) (N : PyNum num) (theme winner loser : string)
     (w : World num),
     let table := load_ratings theme w in
     (table !! winner = None →
        update_ratings theme winner loser w = Raise (KeyError winner))
     ∧ (is_Some (table !! winner) → table !! loser = None →
        update_ratings theme winner loser w = Raise (KeyError loser))
     ∧ (∀ rw rl, table !! winner = Some rw → table !! loser = Some rl →
        match calculate_elo_change (rating rw) (rating rl) (of_int 32) with
        | Ok _ => ∃ w', update_ratings theme winner loser w = Ok w'
        | Raise e => update_ratings theme winner loser w = Raise e
        end))
  ∧ (∀ (theme winner loser : string) (w : World R),
       is_Some (load_ratings theme w !! winner) →
       is_Some (load_ratings theme w !! loser) →
       ∃ w', update_ratings theme winner loser w = Ok w').
Proof.
  split.
  - intros num N theme winner loser w. apply update_ratings_outcome.
  - intros theme winner loser w [rw Hw] [rl Hl].
    destruct (update_ratings_outcome theme winner loser w) as (_ & _ & Hok).
    specialize (Hok rw rl Hw Hl).
    destruct (ideal_elo_change (rating rw) (rating rl))
      as (wd & ld & Hc & _).
    by rewrite Hc in Hok.
Qed.

End IdealFacts.

Section IdealRanking.

Local Open Scope R_scope.

Lemma trunc_nonneg (x : R) : 0 <= x → Ideal.trunc x = Int_part x.
Proof. intros Hx. unfold Ideal.trunc. by destruct (Rle_dec 0 x). Qed.



Lemma ideal_dashes (r mn rg : R) :
  0 < rg → dashes r mn rg = Ok (Ideal.trunc (1 + 49 * (r - mn) / rg)).
Proof.
  intros Hrg. unfold dashes.
  assert (Hgt : gt rg (of_int 0) = true) by by apply ideal_gt_iff.
  rewrite Hgt. cbn. by rewrite ideal_div by lra.
Qed.

Lemma ideal_rank_lines (mn rg : R) (l : list (string * R)) :
  0 < rg →
  rank_lines mn rg l
  = Ok ((λ x, {| ranked_item := fst x; ranked_rating := snd x;
                 dash_count := Ideal.trunc (1 + 49 * (snd x - mn) / rg) |})
          <$> l).
Proof.
  intros Hrg. induction l as [|x l IH]; [done|]. cbn.
  unfold rank_line. rewrite ideal_dashes by done. cbn. by rewrite IH.
Qed.


Lemma List_last_cons {A : Type} (y t : A) (rest : list A) :
  List.last (y :: rest) t = List.last rest y.
Proof.
  revert y t. induction rest as [|z rest IH]; intros y t; [done|].
  change (List.last (y :: z :: rest) t) with (List.last (z :: rest) t).
  by rewrite !IH.
Qed.

Lemma descending_last (t : string * R) rest x :
  descending (t :: rest) → x ∈ t :: rest → snd (List.last rest t) <= snd x.
Proof.
  unfold descending. revert t x.
  induction rest as [|y rest IH]; intros t x Hs Hx.
  - apply list_elem_of_singleton in Hx as ->. cbn. lra.
  - apply StronglySorted_inv in Hs as [Hrest Ht].
    rewrite List_last_cons.
    apply elem_of_cons in Hx as [->|Hx]; [|by apply IH].
    transitivity (snd y).
    + apply IH; [done|left].
    + rewrite Forall_forall in Ht. apply ideal_gt_false, Ht. left.
Qed.



End IdealRanking.

Section IdealExample.

Local Open Scope R_scope.






End IdealExample.

(** ** Binary64 *)

Section Binary64Order.

Local Open Scope Z_scope.

(** Case analysis on the comparisons inside [SFcompare]. *)
Ltac sf_compare_cases :=
  repeat match goal with
  | |- context [Z.compare ?a ?b] =>
      destruct (Z.compare_spec a b); subst
  | H : context [Z.compare ?a ?b] |- _ =>
      destruct (Z.compare_spec a b); subst
  | |- context [Pos.compare_cont Eq ?a ?b] =>
      change (Pos.compare_cont Eq a b) with (Pos.compare a b);
      destruct (Pos.compare_spec a b); subst
  | H : context [Pos.compare_cont Eq ?a ?b] |- _ =>
      change (Pos.compare_cont Eq a b) with (Pos.compare a b) in H;
      destruct (Pos.compare_spec a b); subst
  end.

Lemma SFltb_irrefl (x : spec_float) : SFltb x x = false.
Proof.
  unfold SFltb, SFcompare. destruct x as [[]| [] | | [] m e]; try done;
    by rewrite Z.compare_refl, Pos.compare_cont_refl.
Qed.

Lemma SFltb_trans (x y z : spec_float) :
  SFltb x y = true → SFltb y z = true → SFltb x z = true.
Proof.
  unfold SFltb, SFcompare.
  destruct x as [[]| [] | | [] m1 e1], y as [[]| [] | | [] m2 e2],
    z as [[]| [] | | [] m3 e3];
    try done; intros H1 H2; sf_compare_cases; simpl in *;
    try done; lia.
Qed.

Lemma SFltb_cotrans (x y z : spec_float) :
  SFeqb y y = true → SFltb x z = true →
  SFltb y z = true ∨ SFltb x y = true.
Proof.
  unfold SFltb, SFeqb, SFcompare.
  destruct x as [[]| [] | | [] m1 e1], y as [[]| [] | | [] m2 e2],
    z as [[]| [] | | [] m3 e3];
    try done; intros _ H1; try (by left); try (by right);
    sf_compare_cases; simpl in *;
    try done; try (by left); try (by right); lia.
Qed.

#[global] Instance binary64_order : GtOrder float.
Proof.
  split.
  - intros a. cbn. unfold F64.gt. rewrite FloatAxioms.ltb_spec. apply SFltb_irrefl.
  - intros a b c. cbn. unfold F64.gt. rewrite !FloatAxioms.ltb_spec.
    intros Hba Hcb. by apply (SFltb_trans _ (Prim2SF b)).
Qed.

#[global] Instance binary64_weak_order : GtWeakOrder float.
Proof.
  split.
  - apply binary64_order.
  - intros a b c. unfold not_nan. cbn. unfold F64.gt, F64.ne.
    rewrite !FloatAxioms.ltb_spec, FloatAxioms.eqb_spec. intros Hb Hca.
    destruct (SFeqb (Prim2SF b) (Prim2SF b)) eqn:Heq; [|done].
    by apply SFltb_cotrans.
  - reflexivity.
Qed.

End Binary64Order.

Section Binary64Facts.

Local Open Scope float_scope.

(** [math.pow(10, y)] at a few exponents, as CPython prints them with
    [float.hex]: exact powers, a square root, the smallest positive double,
    an underflow and the two sides of the overflow threshold. *)
Example pow10_values :
  math_pow10 0 = Ok 1
  ∧ math_pow10 2 = Ok 100
  ∧ math_pow10 (-25) = Ok 0x1.ef2d0f5da7dd9p-84
  ∧ math_pow10 0.5 = Ok 0x1.94c583ada5b53p+1
  ∧ math_pow10 (-17.5) = Ok 0x1.d2ab78e5b8623p-59
  ∧ math_pow10 (-323.5) = Ok 0x0.0000000000001p-1022
  ∧ math_pow10 (-324) = Ok 0
  ∧ math_pow10 308.25 = Ok 0x1.fa788589d81d3p+1023
  ∧ math_pow10 309 = Raise OverflowError.
Proof. vm_compute. by split_and!. Qed.

(** Equal ratings: both expected scores are 0.5 and the deltas are 16 and
    -16, with no rounding. *)
Lemma elo_change_equal_ratings :
  calculate_elo_change 1000 1000 (of_int 32) = Ok (16, -16).
Proof. vm_compute. reflexivity. Qed.

(** C2. From ratings 1000 and 1000 the deltas are exactly 16 and -16, and
    recording that [X] beats [Y] leaves [X] at exactly [1000 + 16.0] and [Y]
    at exactly [1000 - 16.0]. *)
Theorem equal_ratings_outcome (theme X Y : string) (w : World float)
    (rx ry : RatingRecord float) :
  X ≠ Y →
  load_ratings theme w !! X = Some rx →
  load_ratings theme w !! Y = Some ry →
  rating rx = 1000 →
  rating ry = 1000 →
  calculate_elo_change (rating rx) (rating ry) (of_int 32) = Ok (16, -16)
  ∧ ∃ w', update_ratings theme X Y w = Ok w'
          ∧ rating <$> load_ratings theme w' !! X = Some (1000 + 16)
          ∧ rating <$> load_ratings theme w' !! Y = Some (1000 - 16).
Proof.
  intros Hne Hx Hy Hrx Hry.
  pose proof elo_change_equal_ratings as Hc.
  rewrite <- Hrx in Hc at 1. rewrite <- Hry in Hc at 1.
  split; [done|].
  pose proof (updated_table_distinct X Y (load_ratings theme w) rx ry _ _
                Hne Hx Hy Hc) as Hup.
  set (table := <[Y := lost ry (-16)]>
                  (<[X := won rx 16]> (load_ratings theme w))) in Hup.
  exists (save_ratings theme table w). split.
  { unfold update_ratings. by rewrite Hup. }
  rewrite load_save_ratings. unfold table. lookup_inserts. cbn.
  by rewrite Hrx, Hry.
Qed.

Lemma equal_ratings_outcome_witness :
  calculate_elo_change (of_int 1000) (of_int 1000) (of_int 32) = Ok (16, -16)
  ∧ ∃ w', update_ratings "t" "X" "Y" Session.started = Ok w'
          ∧ rating <$> load_ratings "t" w' !! "X" = Some (1000 + 16)
          ∧ rating <$> load_ratings "t" w' !! "Y" = Some (1000 - 16).
Proof.
  apply (equal_ratings_outcome "t" "X" "Y" Session.started
           (new_record "2024-01-01T00:00:00")
           (new_record "2024-01-01T00:00:00")).
  - done.
  - vm_compute. reflexivity.
  - vm_compute. reflexivity.
  - vm_compute. reflexivity.
  - vm_compute. reflexivity.
Defined.



(** C1 fails in binary64 as it is worded: [a] and [b] are two different
    items of the theme, each with a record, and [update_ratings] updates
    and writes nothing, because [calculate_elo_change] raises at their
    ratings. *)
Lemma update_ratings_far_apart :
  load_ratings "t" Session.far_apart !! "a"
    = Some (Session.record_of 0%float)
  ∧ load_ratings "t" Session.far_apart !! "b"
    = Some (Session.record_of 123600%float)
  ∧ String.eqb "a" "b" = false
  ∧ calculate_elo_change 0%float 123600%float (of_int 32)
    = Raise OverflowError
  ∧ update_ratings "t" "a" "b" Session.far_apart = Raise OverflowError.
Proof. vm_compute. by split_and!. Qed.

(** C8 fails in binary64: both items have a record, and [math.pow]
    overflows. *)
Lemma update_ratings_overflow :
  is_Some (load_ratings "t" Session.far_apart !! "a")
  ∧ is_Some (load_ratings "t" Session.far_apart !! "b")
  ∧ update_ratings "t" "a" "b" Session.far_apart = Raise OverflowError.
Proof. split_and!; [by eexists|by eexists|]. vm_compute. reflexivity. Qed.

Lemma three_items_binary64 :
  fst <$> view_rankings "t" (Session.three (num := float))
  = Ok [ {| ranked_item := "A"; ranked_rating := 1200; dash_count := 50 |};
         {| ranked_item := "B"; ranked_rating := 1000; dash_count := 25 |};
         {| ranked_item := "C"; ranked_rating := 800; dash_count := 1 |} ].
Proof. vm_compute. reflexivity. Qed.

(** Ties keep the order of the item list: [B] is printed before [D]. *)
Example ties_keep_list_order :
  (map shown ∘ fst) <$> view_rankings "t" Session.with_ties
  = Ok [("A", 1200); ("B", 1000); ("D", 1000); ("C", 800)].
Proof. vm_compute. reflexivity. Qed.

End Binary64Facts.

(** ** Witnesses on the worked sessions *)

Lemma sorted_items_spec_witness :
  let w := Session.three (num := float) in
  let items := load_items "t" w in
  let table := load_ratings "t" w in
  let rating_of := λ item, match table !! item with
                           | Some r => rating r
                           | None => of_int 1000
                           end in
  let keyed := (λ item, (item, rating_of item)) <$> items in
  let ranking := sorted_items "t" w in
  ranking ≡ₚ keyed
  ∧ fst <$> ranking ≡ₚ items
  ∧ descending ranking
  ∧ (∀ r, not_nan r →
       List.filter (λ x, tied r (snd x)) ranking
       = List.filter (λ x, tied r (snd x)) keyed)
  ∧ (∀ item r, item ∈ items → table !! item = Some r →
       (item, rating r) ∈ ranking)
  ∧ (∀ item, item ∈ items → table !! item = None →
       (item, of_int 1000) ∈ ranking)
  ∧ (∀ item x, (item, x) ∈ ranking → item ∈ items ∧ x = rating_of item)
  ∧ (items = [] → ranking = [])
  ∧ (∀ lines w', view_rankings "t" w = Ok (lines, w') →
       w' = w ∧ shown <$> lines = ranking).
Proof.
  apply (sorted_items_spec "t" (Session.three (num := float))).
  unfold load_ratings, Session.three. cbn. rewrite lookup_singleton_eq. cbn.
  apply map_Forall_insert_2; [reflexivity|].
  apply map_Forall_singleton. reflexivity.
Defined.

Lemma statistics_never_decrease_witness :
  ∃ r', load_ratings "t" Session.finished !! "X" = Some r'
        ∧ not_decreased (of_int 0) (biggest_win r')
        ∧ (of_int 0 >? biggest_win r')%py = false
        ∧ not_decreased (of_int 0) (lowest_loss r')
        ∧ (of_int 0 >? lowest_loss r')%py = false.
Proof.
  apply (statistics_never_decrease "t" Session.five_games Session.started
           Session.finished "X" (new_record "2024-01-01T00:00:00")).
  - vm_compute. reflexivity.
  - vm_compute. reflexivity.
Defined.

Lemma started_table :
  load_ratings "t" Session.started
  = <[ "Y" := new_record "2024-01-01T00:00:00" ]>
      (<[ "X" := new_record "2024-01-01T00:00:00" ]> ∅).
Proof. vm_compute. reflexivity. Qed.

Lemma plays_is_wins_plus_losses_witness :
  (∀ items,
     map_Forall (λ _, consistent)
       (fst (initialize_ratings "t" items Session.started)))
  ∧ (∀ outcomes w',
       record_outcomes "t" outcomes Session.started = Ok w' →
       map_Forall (λ _, consistent) (load_ratings "t" w')).
Proof.
  apply (plays_is_wins_plus_losses "t" Session.started).
  rewrite started_table.
  apply map_Forall_insert_2; [reflexivity|].
  apply map_Forall_insert_2; [reflexivity|].
  apply map_Forall_empty.
Defined.

(** ** The intensity scale *)


(** ** Writing a file *)

Section FileFacts.

Import Files.

Lemma append_empty_r (s : string) : s +:+ EmptyString = s.
Proof.
  induction s as [|a s IH]; [done|].
  change (String a s +:+ EmptyString) with (String a (s +:+ EmptyString)).
  by rewrite IH.
Qed.

Lemma append_assoc (s1 s2 s3 : string) :
  (s1 +:+ s2) +:+ s3 = s1 +:+ (s2 +:+ s3).
Proof.
  induction s1 as [|a s1 IH]; [done|].
  change (String a (s1 +:+ s2) +:+ s3 = String a (s1 +:+ (s2 +:+ s3))).
  change (String a ((s1 +:+ s2) +:+ s3) = String a (s1 +:+ (s2 +:+ s3))).
  by rewrite IH.
Qed.

Lemma exec_writes (path : string) (chunks : list string) (buffer : string)
    (d : gmap string string) :
  foldl exec {| disk := d;
                open_file := Some {| handle_path := path;
                                     handle_buffer := buffer |} |}
    (WriteChunk <$> chunks)
  = {| disk := d;
       open_file := Some {| handle_path := path;
                            handle_buffer := buffer +:+ text chunks |} |}.
Proof.
  revert buffer. induction chunks as [|c chunks IH]; intros buffer; cbn.
  - by rewrite append_empty_r.
  - rewrite IH. by rewrite append_assoc.
Qed.

Lemma take_dump_ops (k : nat) (path : string) (chunks : list string) :
  (k ≤ length chunks)%nat →
  take (S k) (dump_ops path chunks)
  = OpenW path :: (WriteChunk <$> take k chunks).
Proof.
  intros Hk. unfold dump_ops. cbn. f_equal.
  rewrite take_app_le by (by rewrite length_fmap).
  by rewrite fmap_take.
Qed.

(** What one [with open(...): json.dump(...)] does to the file. *)
Lemma dump_in_place (path : string) (chunks : list string)
    (d : gmap string string) :
  let fs := {| disk := d; open_file := None |} in
  completed (dump_ops path chunks) fs
    = {| disk := <[path := text chunks]> d; open_file := None |}
  ∧ interrupted 0 (dump_ops path chunks) fs = fs
  ∧ (∀ k, (k ≤ length chunks)%nat →
       interrupted (S k) (dump_ops path chunks) fs
       = {| disk := <[path := text (take k chunks)]> d;
            open_file := None |}).
Proof.
  intros fs. split_and!.
  - unfold completed, dump_ops. cbn. rewrite foldl_app, exec_writes. cbn.
    by rewrite insert_insert_eq.
  - done.
  - intros k Hk. unfold interrupted. rewrite take_dump_ops by done. cbn.
    rewrite exec_writes. cbn. by rewrite insert_insert_eq.
Qed.

(** C9, as the code has it. [save_items] and [save_ratings] rewrite the
    file in place: run to the end they leave exactly the new text; an
    exception before [open] leaves the file as it was; an exception after
    [open] and [k] chunks leaves the first [k] chunks of the new text, the
    empty file when [k = 0]. *)
Theorem save_in_place (theme : string) (d : gmap string string) :
  let fs := {| disk := d; open_file := None |} in
  (∀ items,
     let chunks := iterencode_list items in
     completed (save_items theme items) fs
       = {| disk := <[items_path theme := text chunks]> d;
            open_file := None |}
     ∧ interrupted 0 (save_items theme items) fs = fs
     ∧ (∀ k, (k ≤ length chunks)%nat →
          interrupted (S k) (save_items theme items) fs
          = {| disk := <[items_path theme := text (take k chunks)]> d;
               open_file := None |}))
  ∧ (∀ chunks,
     completed (save_ratings theme chunks) fs
       = {| disk := <[ratings_path theme := text chunks]> d;
            open_file := None |}
     ∧ interrupted 0 (save_ratings theme chunks) fs = fs
     ∧ (∀ k, (k ≤ length chunks)%nat →
          interrupted (S k) (save_ratings theme chunks) fs
          = {| disk := <[ratings_path theme := text (take k chunks)]> d;
               open_file := None |})).
Proof.
  intros fs. split.
  - intros items chunks. apply dump_in_place.
  - intros chunks. apply dump_in_place.
Qed.

(** C9 fails: the file holds the list [["a"]]; [save_items] of
    [["a"; "b"]] is interrupted right after [open]. The file is then
    empty, which is neither the old text nor the new one; one chunk later
    it holds the new text cut after its first item. *)
Lemma save_items_interrupted :
  let old := text (iterencode_list ["a"]) in
  let new := text (iterencode_list ["a"; "b"]) in
  let fs := {| disk := {[ items_path "t" := old ]}; open_file := None |} in
  disk (interrupted 1 (save_items "t" ["a"; "b"]) fs) !! items_path "t"
    = Some EmptyString
  ∧ String.eqb EmptyString old = false
  ∧ String.eqb EmptyString new = false
  ∧ disk (interrupted 2 (save_items "t" ["a"; "b"]) fs) !! items_path "t"
    = Some ("[" +:+ newline +:+ "  " +:+ quote +:+ "a" +:+ quote)
  ∧ String.eqb ("[" +:+ newline +:+ "  " +:+ quote +:+ "a" +:+ quote) new
    = false.
Proof. vm_compute. by split_and!. Qed.

End FileFacts.

(** * Further properties *)

Section UpdateFrame.

Context {num : Type} `{!PyNum num}.

Local Open Scope Z_scope.

(** ** What [update_ratings] leaves alone *)

Lemma won_lost_date_added (r : RatingRecord num) wd ld :
  date_added (won r wd) = date_added r
  ∧ date_added (lost r ld) = date_added r.
Proof. done. Qed.

Lemma updated_table_shape winner loser (ratings table' : Ratings num) :
  updated_table winner loser ratings = Ok table' →
  ∃ rw rl' wd ld,
    ratings !! winner = Some rw
    ∧ <[winner := won rw wd]> ratings !! loser = Some rl'
    ∧ table' = <[loser := lost rl' ld]> (<[winner := won rw wd]> ratings).
Proof.
  intros Hup.
  destruct (updated_table_inv _ _ _ _ Hup)
    as (rw & rl & wd & ld & Hw & Hl & Hc).
  destruct (updated_table_Ok _ _ _ _ _ _ _ Hw Hl Hc) as (rl' & Hrl' & Heq).
  rewrite Heq in Hup. injection Hup as <-. by exists rw, rl', wd, ld.
Qed.

Lemma updated_table_dom winner loser (ratings table' : Ratings num) :
  updated_table winner loser ratings = Ok table' →
  dom table' = dom ratings.
Proof.
  intros Hup.
  destruct (updated_table_shape _ _ _ _ Hup)
    as (rw & rl' & wd & ld & Hw & Hl & ->).
  apply elem_of_dom_2 in Hw, Hl. rewrite dom_insert_L in Hl.
  rewrite !dom_insert_L. apply set_eq. intros x.
  rewrite !elem_of_union, !elem_of_singleton.
  rewrite elem_of_union, elem_of_singleton in Hl. split.
  - intros [->|[->|?]]; [destruct Hl as [->|?]; done|done|done].
  - intros ?. by right; right.
Qed.

(** X1. A recorded outcome changes the rating table of its theme and
    nothing else: the item lists, the tables of the other themes and the
    clock stay as they were; in the table no record appears or
    disappears; no [date_added] changes; and a record of an item that is
    neither the winner nor the loser is the same afterwards. *)
Theorem update_ratings_frame (theme winner loser : string)
    (w w' : World num) :
  update_ratings theme winner loser w = Ok w' →
  items_files w' = items_files w
  ∧ (∀ other, other ≠ theme →
       load_ratings other w' = load_ratings other w)
  ∧ clock w' = clock w ∧ ticks w' = ticks w
  ∧ dom (load_ratings theme w') = dom (load_ratings theme w)
  ∧ (∀ item r, load_ratings theme w !! item = Some r →
       ∃ r', load_ratings theme w' !! item = Some r'
             ∧ date_added r' = date_added r
             ∧ (item ≠ winner → item ≠ loser → r' = r)).
Proof.
  intros Hup.
  destruct (update_ratings_inv _ _ _ _ _ Hup) as (table' & Htable & ->).
  split_and!; try done.
  - intros other Hne. unfold load_ratings. cbn.
    by rewrite lookup_insert_ne.
  - rewrite load_save_ratings. by eapply updated_table_dom.
  - intros item r Hitem. rewrite load_save_ratings.
    destruct (updated_table_shape _ _ _ _ Htable)
      as (rw & rl' & wd & ld & Hw & Hl & ->).
    assert (Hmid : ∃ r1, <[winner := won rw wd]> (load_ratings theme w)
                           !! item = Some r1
              ∧ date_added r1 = date_added r
              ∧ (item ≠ winner → r1 = r)).
    { destruct (decide (item = winner)) as [->|Hne].
      - exists (won rw wd). rewrite lookup_insert_eq.
        assert (r = rw) as -> by congruence. done.
      - exists r. by rewrite lookup_insert_ne. }
    destruct Hmid as (r1 & Hr1 & Hdate & Hsame).
    destruct (decide (item = loser)) as [->|Hne].
    + exists (lost rl' ld). rewrite lookup_insert_eq.
      assert (rl' = r1) as -> by congruence. done.
    + exists r1. rewrite lookup_insert_ne by done.
      split_and!; [done|done|]. intros ? _. by apply Hsame.
Qed.

(** ** The counters, summed over the table *)

Lemma total_insert (f : RatingRecord num → Z) (ratings : Ratings num)
    key r r' :
  ratings !! key = Some r →
  total f (<[key := r']> ratings) = total f ratings - f r + f r'.
Proof.
  intros Hkey. unfold total.
  assert (Hcomm : ∀ (m : Ratings num) (j1 j2 : string)
            (z1 z2 : RatingRecord num) (y : Z),
            j1 ≠ j2 → m !! j1 = Some z1 → m !! j2 = Some z2 →
            f z1 + (f z2 + y) = f z2 + (f z1 + y)) by (intros; lia).
  assert (Hnone : delete key ratings !! key = None)
    by apply lookup_delete_eq.
  pose proof (map_fold_insert_L (λ _ x acc, f x + acc) 0 key r
                (delete key ratings) (Hcomm _) Hnone) as Hold.
  pose proof (map_fold_insert_L (λ _ x acc, f x + acc) 0 key r'
                (delete key ratings) (Hcomm _) Hnone) as Hnew.
  rewrite insert_delete_id in Hold by done.
  rewrite insert_delete_eq in Hnew. cbn in *. lia.
Qed.

Lemma updated_table_totals winner loser (ratings table' : Ratings num) :
  updated_table winner loser ratings = Ok table' →
  total plays table' = total plays ratings + 2
  ∧ total wins table' = total wins ratings + 1
  ∧ total losses table' = total losses ratings + 1.
Proof.
  intros Hup.
  destruct (updated_table_shape _ _ _ _ Hup)
    as (rw & rl' & wd & ld & Hw & Hl & ->).
  rewrite !(total_insert _ _ loser rl') by done.
  rewrite !(total_insert _ _ winner rw) by done.
  cbn. lia.
Qed.

(** X2. Each recorded outcome adds 2 to the sum of [plays] over the table
    and 1 to the sum of [wins] and to the sum of [losses]: after [n]
    outcomes the three sums have grown by [2n], [n] and [n]. *)
Theorem outcomes_are_counted (theme : string)
    (outcomes : list (string * string)) (w w' : World num) :
  record_outcomes theme outcomes w = Ok w' →
  let n := Z.of_nat (length outcomes) in
  total plays (load_ratings theme w')
    = total plays (load_ratings theme w) + 2 * n
  ∧ total wins (load_ratings theme w')
    = total wins (load_ratings theme w) + n
  ∧ total losses (load_ratings theme w')
    = total losses (load_ratings theme w) + n.
Proof.
  revert w. induction outcomes as [|[winner loser] rest IH]; intros w; cbn.
  { intros [= <-]. lia. }
  destruct (update_ratings theme winner loser w) as [w1|] eqn:Hw1;
    cbn; [|done].
  intros Hrest. specialize (IH w1 Hrest). cbn in IH.
  destruct (update_ratings_inv _ _ _ _ _ Hw1) as (table' & Hup & ->).
  rewrite load_save_ratings in IH.
  destruct (updated_table_totals _ _ _ _ Hup) as (Hp & Hw & Hl).
  lia.
Qed.

End UpdateFrame.

Section IdealElo.

Local Open Scope R_scope.

(** ** The Elo formula in exact arithmetic, for any [k] *)

(** With [p = 10^((B - A)/400)] the winner gets [k p / (1 + p)] and the
    loser the opposite. *)
Lemma ideal_elo_form (A B k : R) :
  let p := Rpower 10 ((B - A) / 400) in
  0 < p
  ∧ calculate_elo_change A B k = Ok (k * (p / (1 + p)), - (k * (p / (1 + p)))).
Proof.
  intros p. assert (Hp : 0 < p) by apply exp_pos.
  assert (Hq : Rpower 10 ((A - B) / 400) = / p).
  { unfold p. rewrite <- Rpower_Ropp. f_equal. lra. }
  assert (Hip : 0 < / p) by by apply Rinv_0_lt_compat.
  split; [done|]. unfold calculate_elo_change. cbn.
  rewrite !ideal_div by lra. cbn. fold p. rewrite Hq.
  rewrite !ideal_div by lra. cbn. do 2 f_equal; field; lra.
Qed.

Lemma odds_share_bounds (p : R) : 0 < p → 0 < p / (1 + p) < 1.
Proof.
  intros Hp. split.
  - apply Rdiv_lt_0_compat; lra.
  - apply Rmult_lt_reg_r with (1 + p); [lra|].
    replace (p / (1 + p) * (1 + p)) with p by (field; lra). lra.
Qed.

Lemma odds_share_mono (p q : R) :
  0 < p → p <= q → p / (1 + p) <= q / (1 + q).
Proof.
  intros Hp Hpq.
  apply Rmult_le_reg_r with ((1 + p) * (1 + q)).
  { apply Rmult_lt_0_compat; lra. }
  replace (p / (1 + p) * ((1 + p) * (1 + q))) with (p * (1 + q))
    by (field; lra).
  replace (q / (1 + q) * ((1 + p) * (1 + q))) with (q * (1 + p))
    by (field; lra).
  lra.
Qed.

Lemma Rpower_10_mono (x y : R) : x <= y → Rpower 10 x <= Rpower 10 y.
Proof.
  intros [Hlt| ->]; [|lra]. left. apply Rpower_lt; lra.
Qed.

(** X3. In exact arithmetic, for any [k > 0], no game moves a rating by
    [k] or more: the winner's delta lies strictly between 0 and [k], the
    loser's strictly between [-k] and 0, and they cancel. *)
Theorem elo_change_below_k (A B k : R) :
  0 < k →
  ∃ winner_delta loser_delta,
    calculate_elo_change A B k = Ok (winner_delta, loser_delta)
    ∧ 0 < winner_delta < k
    ∧ - k < loser_delta < 0
    ∧ winner_delta + loser_delta = 0.
Proof.
  intros Hk. destruct (ideal_elo_form A B k) as [Hp Hc].
  set (p := Rpower 10 ((B - A) / 400)) in *.
  destruct (odds_share_bounds p Hp) as [H0 H1].
  eexists _, _. split; [exact Hc|].
  assert (0 < k * (p / (1 + p))) by by apply Rmult_lt_0_compat.
  assert (k * (p / (1 + p)) < k * 1) by by apply Rmult_lt_compat_l.
  lra.
Qed.

(** X4. In exact arithmetic the deltas depend on the rating difference
    only, and shrink as the winner's lead grows: if the winner of a second
    game was at least as far ahead as the winner of a first, the second
    winner gains no more and the second loser loses no more. *)
Theorem elo_change_monotone (A B A' B' k : R) :
  0 < k →
  A - B <= A' - B' →
  ∃ wd ld wd' ld',
    calculate_elo_change A B k = Ok (wd, ld)
    ∧ calculate_elo_change A' B' k = Ok (wd', ld')
    ∧ wd' <= wd ∧ ld <= ld'.
Proof.
  intros Hk Hlead.
  destruct (ideal_elo_form A B k) as [Hp Hc].
  destruct (ideal_elo_form A' B' k) as [Hp' Hc'].
  set (p := Rpower 10 ((B - A) / 400)) in *.
  set (p' := Rpower 10 ((B' - A') / 400)) in *.
  assert (Hpp : p' <= p) by (apply Rpower_10_mono; lra).
  pose proof (odds_share_mono p' p Hp' Hpp) as Hshare.
  eexists _, _, _, _. split; [exact Hc|]. split; [exact Hc'|].
  assert (k * (p' / (1 + p')) <= k * (p / (1 + p)))
    by (apply Rmult_le_compat_l; lra).
  lra.
Qed.

(** X5. In exact arithmetic the two ways a game can end are
    complementary: what [A] would gain by beating [B] and what [B] would
    gain by beating [A] add up to [k], and what one gains by winning is [k]
    more than what it loses by losing. *)
Theorem elo_change_complementary (A B k : R) :
  ∃ wd ld wd' ld',
    calculate_elo_change A B k = Ok (wd, ld)
    ∧ calculate_elo_change B A k = Ok (wd', ld')
    ∧ wd + wd' = k
    ∧ wd = k + ld'.
Proof.
  destruct (ideal_elo_form A B k) as [Hp Hc].
  destruct (ideal_elo_form B A k) as [Hp' Hc'].
  set (p := Rpower 10 ((B - A) / 400)) in *.
  assert (Hq : Rpower 10 ((A - B) / 400) = / p).
  { unfold p. rewrite <- Rpower_Ropp. f_equal. lra. }
  rewrite Hq in Hp', Hc'.
  eexists _, _, _, _. split; [exact Hc|]. split; [exact Hc'|].
  split; field; lra.
Qed.

(** ** The sum of the ratings *)

Lemma total_rating_insert (ratings : Ratings R) key r r' :
  ratings !! key = Some r →
  total_rating (<[key := r']> ratings)
  = total_rating ratings - rating r + rating r'.
Proof.
  intros Hkey. unfold total_rating.
  assert (Hcomm : ∀ (m : Ratings R) (j1 j2 : string)
            (z1 z2 : RatingRecord R) (y : R),
            j1 ≠ j2 → m !! j1 = Some z1 → m !! j2 = Some z2 →
            rating z1 + (rating z2 + y) = rating z2 + (rating z1 + y))
    by (intros; lra).
  assert (Hnone : delete key ratings !! key = None)
    by apply lookup_delete_eq.
  pose proof (map_fold_insert_L (λ _ x acc, rating x + acc) 0 key r
                (delete key ratings) (Hcomm _) Hnone) as Hold.
  pose proof (map_fold_insert_L (λ _ x acc, rating x + acc) 0 key r'
                (delete key ratings) (Hcomm _) Hnone) as Hnew.
  rewrite insert_delete_id in Hold by done.
  rewrite insert_delete_eq in Hnew. lra.
Qed.

Lemma updated_table_ideal winner loser (ratings : Ratings R) :
  is_Some (ratings !! winner) → is_Some (ratings !! loser) →
  ∃ table', updated_table winner loser ratings = Ok table'
            ∧ total_rating table' = total_rating ratings
            ∧ dom table' = dom ratings.
Proof.
  intros [rw Hw] [rl Hl].
  destruct (ideal_elo_change (rating rw) (rating rl))
    as (wd & ld & Hc & _ & _ & Hsum).
  destruct (updated_table_Ok _ _ _ _ _ _ _ Hw Hl Hc) as (rl' & Hrl' & Heq).
  eexists. split; [exact Heq|]. split.
  - rewrite (total_rating_insert _ loser rl') by done.
    rewrite (total_rating_insert _ winner rw) by done.
    cbn. lra.
  - by apply (updated_table_dom winner loser).
Qed.

(** X6. In exact arithmetic rating points are neither created nor lost:
    a sequence of outcomes among items that have a record always runs to
    its end, and the sum of all ratings of the table is afterwards what it
    was before. *)
Theorem ratings_sum_is_kept (theme : string)
    (outcomes : list (string * string)) (w : World R) :
  Forall (λ o, is_Some (load_ratings theme w !! fst o)
               ∧ is_Some (load_ratings theme w !! snd o)) outcomes →
  ∃ w', record_outcomes theme outcomes w = Ok w'
        ∧ total_rating (load_ratings theme w')
          = total_rating (load_ratings theme w).
Proof.
  assert (Hgen : ∀ w0 : World R,
    Forall (λ o, fst o ∈ dom (load_ratings theme w0)
                 ∧ snd o ∈ dom (load_ratings theme w0)) outcomes →
    ∃ w', record_outcomes theme outcomes w0 = Ok w'
          ∧ total_rating (load_ratings theme w')
            = total_rating (load_ratings theme w0)).
  { induction outcomes as [|[winner loser] rest IH]; intros w0 Hall.
    { by exists w0. }
    apply Forall_cons in Hall as [[Hw Hl] Hall]. cbn in Hw, Hl.
    apply elem_of_dom in Hw, Hl.
    destruct (updated_table_ideal winner loser _ Hw Hl)
      as (table' & Hup & Hsum & Hdom).
    cbn. unfold update_ratings. rewrite Hup. cbn.
    destruct (IH (save_ratings theme table' w0)) as (w' & Hrun & Hkept).
    { rewrite load_save_ratings, Hdom. done. }
    exists w'. split; [done|].
    rewrite Hkept, load_save_ratings. done. }
  intros Hall. apply Hgen.
  eapply Forall_impl; [exact Hall|]. intros o [? ?].
  split; by apply elem_of_dom.
Qed.

End IdealElo.

Section IdealDisplay.

Local Open Scope R_scope.

(** ** The bars of [view_rankings], in exact arithmetic *)

Lemma Int_part_mono (x y : R) : x <= y → (Int_part x ≤ Int_part y)%Z.
Proof.
  intros Hxy.
  destruct (base_Int_part x) as [Hx _]. destruct (base_Int_part y) as [_ Hy].
  apply Z.lt_succ_r, lt_IZR. rewrite succ_IZR. lra.
Qed.

(** The lines are the sorted pairs, each with its bar. *)
Lemma view_rankings_ideal_lines (theme : string) (w : World R) :
  ∃ mn rg,
    0 < rg
    ∧ (∀ x, x ∈ sorted_items theme w → mn <= snd x)
    ∧ view_rankings theme w
      = Ok ((λ x, {| ranked_item := fst x; ranked_rating := snd x;
                     dash_count :=
                       Int_part (1 + 49 * (snd x - mn) / rg) |})
              <$> sorted_items theme w, w).
Proof.
  unfold view_rankings.
  assert (Hdesc : descending (sorted_items theme w)).
  { apply sort_desc_descending, Forall_forall. intros; apply ideal_not_nan. }
  destruct (sorted_items theme w) as [|t rest].
  { exists 0, 1. split_and!; [lra| |done]. intros x Hx.
    by apply elem_of_nil in Hx. }
  set (mx := snd t). set (mn := snd (List.last rest t)).
  set (rg := if (mx !=? mn)%py then (mx - mn)%py else of_int 1).
  assert (Hmn : ∀ x, x ∈ t :: rest → mn <= snd x)
    by (intros x Hx; by apply descending_last).
  assert (Hrg : 0 < rg).
  { unfold rg. destruct (mx !=? mn)%py eqn:Hne; cbn; [|lra].
    apply ideal_ne_iff in Hne. specialize (Hmn t). cbn in Hmn.
    assert (mn <= mx) by (apply Hmn; left). lra. }
  exists mn, rg. split_and!; [done|done|].
  rewrite ideal_rank_lines by done. cbn [mbind result_bind mret result_ret].
  do 2 f_equal. apply Forall_fmap_ext, Forall_forall. intros x Hx.
  f_equal. apply trunc_nonneg. specialize (Hmn x Hx).
  assert (0 <= 49 * (snd x - mn) / rg); [|lra].
  apply Rmult_le_pos; [lra|]. by apply Rlt_le, Rinv_0_lt_compat.
Qed.

(** X7. In exact arithmetic [view_rankings] prints one line for each item
    of the list, and the bars never grow on the way down: a line has at
    most as many dashes as any line above it. *)
Theorem bars_never_grow (theme : string) (w : World R) :
  ∃ lines, view_rankings theme w = Ok (lines, w)
    ∧ length lines = length (load_items theme w)
    ∧ StronglySorted (λ above below,
                        (dash_count below ≤ dash_count above)%Z) lines.
Proof.
  destruct (view_rankings_ideal_lines theme w) as (mn & rg & Hrg & Hmn & ->).
  eexists. split; [done|]. split.
  - rewrite length_fmap. unfold sorted_items.
    by rewrite sort_desc_perm, length_fmap.
  - assert (Hdesc : descending (sorted_items theme w)).
    { apply sort_desc_descending, Forall_forall.
      intros; apply ideal_not_nan. }
    clear Hmn. unfold descending in Hdesc.
    induction Hdesc as [|x l Hl IH Hx]; cbn; constructor; [done|].
    apply Forall_fmap, Forall_forall. intros y Hy. cbn.
    rewrite Forall_forall in Hx. specialize (Hx y Hy).
    apply ideal_gt_false in Hx. apply Int_part_mono.
    assert (49 * (snd y - mn) / rg <= 49 * (snd x - mn) / rg); [|lra].
    apply Rmult_le_compat_r; [by apply Rlt_le, Rinv_0_lt_compat|lra].
Qed.

End IdealDisplay.

(** ** Python's string methods *)

Section StrFacts.

Import Str.

Lemma rstrip_idemp (s : string) : rstrip (rstrip s) = rstrip s.
Proof.
  induction s as [|c s IH]; [done|]. cbn.
  destruct (rstrip s) as [|d t] eqn:Hs.
  - destruct (isspace c) eqn:Hc; [done|]. cbn. by rewrite Hc.
  - change (rstrip (String c (String d t)))
      with (match rstrip (String d t) with
            | EmptyString => if isspace c then EmptyString
                             else String c EmptyString
            | t' => String c t'
            end).
    by rewrite IH.
Qed.

Lemma lstrip_start (s : string) :
  match lstrip s with
  | EmptyString => True
  | String c _ => isspace c = false
  end.
Proof.
  induction s as [|c s IH]; [done|]. cbn.
  destruct (isspace c) eqn:Hc; [done|]. by cbn.
Qed.

Lemma rstrip_start (c : ascii) (s : string) :
  isspace c = false → ∃ t, rstrip (String c s) = String c t.
Proof.
  intros Hc. cbn. destruct (rstrip s); [|by eexists].
  rewrite Hc. by eexists.
Qed.

(** [strip] returns a stripped string. *)
Lemma strip_idemp (s : string) : strip (strip s) = strip s.
Proof.
  unfold strip. pose proof (lstrip_start s) as Hstart.
  destruct (lstrip s) as [|c t]; [done|].
  destruct (rstrip_start c t Hstart) as [t' Ht']. rewrite Ht'.
  cbn [lstrip]. rewrite Hstart, <- Ht'. apply rstrip_idemp.
Qed.

Lemma length_append (s1 s2 : string) :
  String.length (s1 +:+ s2) = (String.length s1 + String.length s2)%nat.
Proof.
  induction s1 as [|a s1 IH]; [done|].
  change (S (String.length (s1 +:+ s2))
          = S (String.length s1 + String.length s2)).
  by rewrite IH.
Qed.

Lemma endswith_unfold (suffix s : string) :
  endswith suffix s
  = if String.eqb s suffix then true
    else match s with
         | EmptyString => false
         | String _ s' => endswith suffix s'
         end.
Proof. by destruct s. Qed.

Lemma endswith_append (suffix s : string) :
  endswith suffix (s +:+ suffix) = true.
Proof.
  induction s as [|a s IH].
  - change (EmptyString +:+ suffix) with suffix.
    by rewrite endswith_unfold, String.eqb_refl.
  - change (String a s +:+ suffix) with (String a (s +:+ suffix)).
    rewrite endswith_unfold. by destruct (String.eqb _ suffix).
Qed.

(** A name ending in [_ratings.json] does not end in [_items.json]. *)
Lemma ratings_name_not_items (theme : string) :
  endswith "_items.json" (theme +:+ "_ratings.json") = false.
Proof.
  induction theme as [|a s IH]; [done|].
  change (String a s +:+ "_ratings.json")
    with (String a (s +:+ "_ratings.json")).
  rewrite endswith_unfold, IH.
  destruct (String.eqb _ "_items.json") eqn:Heq; [|done].
  apply String.eqb_eq in Heq. apply (f_equal String.length) in Heq.
  change (S (String.length (s +:+ "_ratings.json")) = 11%nat) in Heq.
  rewrite length_append in Heq. cbn in Heq. lia.
Qed.

(** [_items.json] cannot begin inside a name and end in the [_items.json]
    appended to it: no character of it but the first is an underscore. *)
Lemma prefix_across (t : string) :
  String.prefix "_items.json" (t +:+ "_items.json") = true →
  t = EmptyString ∨ String.prefix "_items.json" t = true.
Proof.
  intros H. destruct t as [|c t]; [by left|]. right.
  do 11 (
    change (String ?a ?s +:+ ?s') with (String a (s +:+ s')) in H;
    cbn [String.prefix] in H;
    match type of H with
    | context [ascii_dec ?a ?b] => destruct (ascii_dec a b) as [<-|]
    end; [|done];
    try (destruct t as [|c t]; [exfalso; vm_compute in H; done|])).
  destruct t; reflexivity.
Qed.

End StrFacts.

Section RemoveFacts.

Import Str.

Lemma contains_unfold (old s : string) :
  contains old s
  = if String.prefix old s then true
    else match s with
         | EmptyString => false
         | String _ s' => contains old s'
         end.
Proof. by destruct s. Qed.

(** Removing [_items.json] from a name followed by [_items.json] gives the
    name back when the name does not contain it. *)
Lemma remove_appended (theme : string) :
  contains "_items.json" theme = false →
  remove "_items.json" (theme +:+ "_items.json") = theme.
Proof.
  unfold remove. induction theme as [|c t IH]; [done|].
  rewrite contains_unfold.
  destruct (String.prefix "_items.json" (String c t)) eqn:Hpre; [done|].
  intros Ht.
  destruct (String.prefix "_items.json" (String c t +:+ "_items.json"))
    eqn:Hacross.
  { by destruct (prefix_across _ Hacross) as [?|Hp]; [|rewrite Hp in Hpre]. }
  change (String c t +:+ "_items.json")
    with (String c (t +:+ "_items.json")) in *.
  cbn [remove_from]. rewrite Hacross. by rewrite IH.
Qed.

End RemoveFacts.

Section ThemeList.

Context {num : Type} `{!PyNum num}.

(** ** [get_themes] *)

Lemma filter_all {A : Type} (f : A → bool) (l : list A) :
  Forall (λ x, f x = true) l → List.filter f l = l.
Proof. induction 1 as [|x l Hx _ IH]; cbn; [done|]. by rewrite Hx, IH. Qed.

Lemma filter_none {A : Type} (f : A → bool) (l : list A) :
  Forall (λ x, f x = false) l → List.filter f l = [].
Proof. induction 1 as [|x l Hx _ IH]; cbn; [done|]. by rewrite Hx. Qed.

Lemma listdir_items (w : World num) :
  List.filter (Str.endswith "_items.json") (listdir w)
  = items_name <$> (map_to_list (items_files w)).*1.
Proof.
  unfold listdir. rewrite List.filter_app.
  rewrite filter_all, filter_none; [by rewrite app_nil_r| |].
  - apply Forall_fmap, Forall_forall. intros theme _.
    apply ratings_name_not_items.
  - apply Forall_fmap, Forall_forall. intros theme _.
    apply endswith_append.
Qed.

Lemma get_themes_perm (w : World num) :
  get_themes w
  ≡ₚ (λ theme, Str.remove "_items.json" (items_name theme))
       <$> (map_to_list (items_files w)).*1.
Proof.
  unfold get_themes. rewrite merge_sort_Permutation, listdir_items.
  by rewrite <- list_fmap_compose.
Qed.

Lemma has_items_file (w : World num) (theme : string) :
  theme ∈ (map_to_list (items_files w)).*1
  ↔ is_Some (items_files w !! theme).
Proof.
  rewrite list_elem_of_fmap. split.
  - intros ([k v] & -> & Hin). apply elem_of_map_to_list in Hin. by eexists.
  - intros [v Hv]. exists (theme, v). split; [done|].
    by apply elem_of_map_to_list.
Qed.

Lemma get_themes_own_name (w : World num) (theme : string) :
  is_Some (items_files w !! theme) →
  Str.contains "_items.json" theme = false →
  theme ∈ get_themes w.
Proof.
  intros Hfile Hplain. rewrite get_themes_perm.
  apply list_elem_of_fmap. exists theme.
  split; [|by apply has_items_file].
  unfold items_name. by rewrite remove_appended.
Qed.

(** X8. [get_themes] returns its names in ascending order; it lists, under
    its own name, every theme that has an item list and whose name does
    not contain [_items.json]; every name it lists comes from an item
    list (a rating table alone makes no theme); and when no theme's name
    contains [_items.json] it lists no name twice. *)
Theorem get_themes_lists_the_themes (w : World num) :
  StronglySorted String.le (get_themes w)
  ∧ (∀ theme, is_Some (items_files w !! theme) →
       Str.contains "_items.json" theme = false →
       theme ∈ get_themes w)
  ∧ (∀ name, name ∈ get_themes w →
       ∃ theme, is_Some (items_files w !! theme)
                ∧ name = Str.remove "_items.json" (items_name theme))
  ∧ ((∀ theme, is_Some (items_files w !! theme) →
        Str.contains "_items.json" theme = false) →
     NoDup (get_themes w)).
Proof.
  split_and!.
  - unfold get_themes. apply StronglySorted_merge_sort; apply _.
  - apply get_themes_own_name.
  - intros name Hname. rewrite get_themes_perm in Hname.
    apply list_elem_of_fmap in Hname as (theme & -> & Hin).
    exists theme. split; [by apply has_items_file|done].
  - intros Hplain. rewrite get_themes_perm.
    apply NoDup_fmap_2_strong; [|apply NoDup_fst_map_to_list].
    intros t1 t2 Ht1 Ht2. unfold items_name.
    rewrite !remove_appended; [done|apply Hplain..];
      by apply has_items_file.
Qed.

End ThemeList.

Section AddItems.

Context {num : Type} `{!PyNum num}.

(** ** [add_items_to_theme] *)

Lemma accepted_later line lines item :
  accepted lines item → accepted (line :: lines) item.
Proof.
  intros (? & ? & ? & l & ? & ?). split_and!; try done.
  exists l. split; [by right|done].
Qed.

Lemma add_items_loop_spec lines items new_items items' new_items' rest :
  add_items_loop lines items new_items = Some (items', new_items', rest) →
  ∃ added, items' = items ++ added ∧ new_items' = new_items ++ added
           ∧ NoDup added
           ∧ Forall (λ item, (item ∉ items) ∧ accepted lines item) added.
Proof.
  revert items new_items items' new_items' rest.
  induction lines as [|line lines IH];
    intros items new_items items' new_items' rest; [done|].
  cbn [add_items_loop]. cbv zeta.
  destruct (String.eqb_spec (Str.strip line) EmptyString) as [Hempty|Hitem].
  { intros [= <- <- <-]. exists []. rewrite !app_nil_r.
    split_and!; [done|done|constructor|constructor]. }
  assert (Hskip : add_items_loop lines items new_items
                  = Some (items', new_items', rest) →
            ∃ added, items' = items ++ added
                     ∧ new_items' = new_items ++ added ∧ NoDup added
                     ∧ Forall (λ item, (item ∉ items)
                                       ∧ accepted (line :: lines) item) added).
  { intros Hloop.
    destruct (IH _ _ _ _ _ Hloop) as (added & ? & ? & ? & Hall).
    exists added. split_and!; try done.
    eapply Forall_impl; [exact Hall|]. intros x [? ?].
    split; [done|by apply accepted_later]. }
  destruct (100 <? String.length (Str.strip line))%nat eqn:Hlong;
    [apply Hskip|].
  apply Nat.ltb_ge in Hlong.
  destruct (bool_decide (Str.strip line ∈ items)) eqn:Hdup; [apply Hskip|].
  apply bool_decide_eq_false in Hdup.
  intros Hloop.
  destruct (IH _ _ _ _ _ Hloop) as (added & -> & -> & Hnodup & Hall).
  exists (Str.strip line :: added). rewrite <- !app_assoc. cbn.
  split_and!; [done|done| |].
  - apply NoDup_cons. split; [|done]. intros Hin.
    rewrite Forall_forall in Hall. destruct (Hall _ Hin) as [Hnot _].
    apply Hnot, elem_of_app. right. by left.
  - constructor.
    + split; [done|]. split_and!; [done|done|apply strip_idemp|].
      exists line. split; [by left|done].
    + eapply Forall_impl; [exact Hall|]. intros x [Hnot Hacc].
      split; [|by apply accepted_later].
      intros Hin. apply Hnot, elem_of_app. by left.
Qed.

(** [initialize_ratings] either finds every item rated and leaves the world
    as it was, or saves the table it returns. *)
Lemma initialize_ratings_cases theme items (w : World num) :
  let table' := fst (initialize_ratings theme items w) in
  let w' := snd (initialize_ratings theme items w) in
  (w' = w ∧ table' = load_ratings theme w)
  ∨ (∃ n, w' = save_ratings theme table' (set_ticks n w)).
Proof.
  unfold initialize_ratings. cbv zeta.
  set (st0 := {| loop_ratings := load_ratings theme w;
                 loop_updated := false; loop_ticks := ticks w |}).
  destruct (loop_updated (foldl (init_item (clock w)) st0 items)) eqn:Hup;
    cbn [fst snd].
  - right. by eexists.
  - left.
    assert (Hall : ∀ item, item ∈ items →
              is_Some (loop_ratings st0 !! item)).
    { intros item Hin. destruct (loop_ratings st0 !! item) eqn:Hitem; [done|].
      pose proof (init_loop_updated (clock w) items st0 item Hin Hitem).
      congruence. }
    rewrite (init_loop_noop _ _ _ Hall). cbn. by rewrite set_ticks_same.
Qed.

Lemma initialize_ratings_load theme items (w : World num) :
  load_ratings theme (snd (initialize_ratings theme items w))
  = fst (initialize_ratings theme items w).
Proof.
  destruct (initialize_ratings_cases theme items w) as [[-> ->]|[n ->]];
    [done|apply load_save_ratings].
Qed.

Lemma initialize_ratings_frame theme items (w : World num) :
  let w' := snd (initialize_ratings theme items w) in
  items_files w' = items_files w
  ∧ clock w' = clock w
  ∧ (∀ other, other ≠ theme →
       ratings_files w' !! other = ratings_files w !! other).
Proof.
  cbv zeta.
  destruct (initialize_ratings_cases theme items w) as [[-> _]|[n ->]];
    [done|].
  split_and!; [done|done|]. intros other Hne. cbn.
  by rewrite lookup_insert_ne.
Qed.

Lemma load_save_items theme items (w : World num) :
  load_items theme (save_items theme items w) = items.
Proof. unfold load_items. cbn. by rewrite lookup_insert_eq. Qed.

(** The two ways [add_items_to_theme] can end: with the world as it was,
    or, having accepted some items, with the longer list saved and
    rated. *)
Lemma add_items_cases theme lines (w : World num) :
  let run := add_items_to_theme theme lines w in
  let items := load_items theme w in
  (run_world run = w)
  ∨ (∃ x added,
       NoDup (x :: added)
       ∧ Forall (λ item, (item ∉ items) ∧ accepted lines item) (x :: added)
       ∧ run_ending run = Returned
       ∧ run_world run
         = snd (initialize_ratings theme (items ++ x :: added)
                  (save_items theme (items ++ x :: added) w))).
Proof.
  cbv zeta. unfold add_items_to_theme.
  destruct (add_items_loop lines (load_items theme w) [])
    as [[[items' new_items'] rest]|] eqn:Hloop; [|by left].
  destruct (add_items_loop_spec _ _ _ _ _ _ Hloop)
    as (added & -> & -> & Hnodup & Hall).
  destruct added as [|x added]; cbn [app]; [by left|].
  right. by exists x, added.
Qed.

(** X9. [add_items_to_theme] only appends to the item list: the new list
    is the old one followed by the items accepted, which are pairwise
    different, not in the old list, not empty, at most 100 characters
    long and stripped lines of the input; a list without duplicates
    stays without duplicates. The lists of the other themes stay as they
    were, and when the input ends before the empty line nothing of what
    was typed is kept. *)
Theorem add_items_appends (theme : string) (lines : list string)
    (w : World num) :
  let run := add_items_to_theme theme lines w in
  (∃ added,
     load_items theme (run_world run) = load_items theme w ++ added
     ∧ NoDup added
     ∧ Forall (λ item, (item ∉ load_items theme w) ∧ accepted lines item)
         added)
  ∧ (NoDup (load_items theme w) → NoDup (load_items theme (run_world run)))
  ∧ (∀ other, other ≠ theme →
       items_files (run_world run) !! other = items_files w !! other)
  ∧ (run_ending run = EndOfInput → run_world run = w).
Proof.
  cbv zeta.
  destruct (add_items_cases theme lines w)
    as [Hsame|(x & added & Hnodup & Hall & Hend & Hw)].
  - rewrite Hsame. split_and!; [|done|done|done].
    exists []. rewrite app_nil_r. split_and!; [done|constructor|constructor].
  - rewrite Hw, Hend.
    destruct (initialize_ratings_frame theme
                (load_items theme w ++ x :: added)
                (save_items theme (load_items theme w ++ x :: added) w))
      as (Hitems & _ & _).
    assert (Hlist : load_items theme
                      (snd (initialize_ratings theme
                              (load_items theme w ++ x :: added)
                              (save_items theme
                                 (load_items theme w ++ x :: added) w)))
                    = load_items theme w ++ x :: added).
    { unfold load_items at 1. rewrite Hitems. apply load_save_items. }
    split_and!; [| |intros other Hne|done].
    + by exists (x :: added).
    + intros Hold. rewrite Hlist. apply NoDup_app. split_and!; [done| |done].
      intros item Hin Hnew. rewrite Forall_forall in Hall.
      by destruct (Hall item Hnew).
    + rewrite Hitems. cbn. by rewrite lookup_insert_ne.
Qed.

(** X10. After [add_items_to_theme] every record there was is still
    there, unchanged; a key outside the new list has the record it had, or
    none; either the world is as it was, or every item of the list, old or
    new, has a record; and the tables of the other themes stay as they
    were. *)
Theorem add_items_rates_the_list (theme : string) (lines : list string)
    (w : World num) :
  let w' := run_world (add_items_to_theme theme lines w) in
  (∀ key r, load_ratings theme w !! key = Some r →
     load_ratings theme w' !! key = Some r)
  ∧ (∀ key, key ∉ load_items theme w' →
       load_ratings theme w' !! key = load_ratings theme w !! key)
  ∧ (w' = w
     ∨ ∀ item, item ∈ load_items theme w' →
         is_Some (load_ratings theme w' !! item))
  ∧ (∀ other, other ≠ theme →
       ratings_files w' !! other = ratings_files w !! other).
Proof.
  cbv zeta.
  destruct (add_items_cases theme lines w)
    as [Hsame|(x & added & Hnodup & Hall & Hend & Hw)].
  { rewrite Hsame. split_and!; [done|done|by left|done]. }
  rewrite Hw. set (items := load_items theme w ++ x :: added).
  set (w1 := save_items theme items w).
  destruct (initialize_ratings_frame theme items w1) as (Hitems & _ & Hothers).
  assert (Hlist : load_items theme (snd (initialize_ratings theme items w1))
                  = items).
  { unfold load_items at 1. rewrite Hitems. apply load_save_items. }
  rewrite Hlist, initialize_ratings_load, initialize_ratings_table.
  change (load_ratings theme w1) with (load_ratings theme w).
  split_and!.
  - intros key r Hkey. by apply init_loop_keeps.
  - intros key Hkey. by rewrite init_loop_elsewhere.
  - right. intros item Hin. by apply init_loop_covers.
  - intros other Hne. by rewrite Hothers.
Qed.



End AddItems.

Section CreateTheme.

Context {num : Type} `{!PyNum num}.

(** ** [create_theme] *)

(** With an empty name, or one [get_themes] lists, nothing happens. *)
Lemma create_theme_listed (line : string) (rest : list string)
    (w : World num) :
  let name := Str.lower (Str.strip line) in
  name = EmptyString ∨ name ∈ get_themes w →
  create_theme (line :: rest) w
  = Some {| run_world := w; run_input := rest; run_ending := Returned |}.
Proof.
  cbv zeta. intros Hcase. unfold create_theme.
  destruct (String.eqb_spec (Str.lower (Str.strip line)) EmptyString)
    as [|Hne]; [done|].
  destruct Hcase as [?|Hin]; [done|].
  by rewrite bool_decide_eq_true_2.
Qed.

(** A plain name that passes the two checks gets an empty list and an
    empty table; with the answer [y], items can follow. *)
Lemma create_theme_cases (line : string) (rest : list string)
    (w : World num) :
  let name := Str.lower (Str.strip line) in
  let w2 := save_ratings name ∅ (save_items name [] w) in
  name ≠ EmptyString → name ∉ get_themes w → plain_name name = true →
  ∃ run,
    create_theme (line :: rest) w = Some run
    ∧ (run_world run = w2
       ∨ ∃ x added,
           NoDup (x :: added)
           ∧ Forall (accepted (tail rest)) (x :: added)
           ∧ run_world run
             = snd (initialize_ratings name (x :: added)
                      (save_items name (x :: added) w2))).
Proof.
  cbv zeta. intros Hname Hnew Hplain. unfold create_theme.
  destruct (String.eqb_spec (Str.lower (Str.strip line)) EmptyString);
    [done|].
  rewrite bool_decide_eq_false_2 by done. rewrite Hplain. cbn [negb].
  destruct rest as [|answer lines]; [eexists; split; [done|by left]|].
  destruct (String.eqb _ "y"); [|eexists; split; [done|by left]].
  set (name := Str.lower (Str.strip line)) in *.
  set (w2 := save_ratings name ∅ (save_items name [] w)).
  eexists. split; [done|].
  destruct (add_items_cases name lines w2)
    as [Hsame|(x & added & Hnodup & Hall & _ & Hw)]; [by left|].
  right. exists x, added.
  assert (Hempty : load_items name w2 = []).
  { unfold load_items. cbn. by rewrite lookup_insert_eq. }
  rewrite Hempty in Hw, Hall. split_and!; [done| |done].
  eapply Forall_impl; [exact Hall|]. by intros item [_ ?].
Qed.

(** Whenever the model follows [create_theme], it is in one of the two
    cases above. *)
Lemma create_theme_inv (line : string) (rest : list string)
    (w : World num) (run : Run num) :
  let name := Str.lower (Str.strip line) in
  create_theme (line :: rest) w = Some run →
  (name = EmptyString ∨ name ∈ get_themes w)
  ∨ (name ≠ EmptyString ∧ (name ∉ get_themes w) ∧ plain_name name = true).
Proof.
  cbv zeta. unfold create_theme.
  destruct (String.eqb_spec (Str.lower (Str.strip line)) EmptyString)
    as [|Hne]; [by left; left|].
  destruct (decide (Str.lower (Str.strip line) ∈ get_themes w))
    as [Hin|Hout]; [by left; right|].
  rewrite bool_decide_eq_false_2 by done.
  destruct (plain_name _) eqn:Hplain; cbn [negb]; [|done].
  intros _. by right.
Qed.

(** X12. [create_theme] never touches a theme that is there: with an
    empty name, or a name [get_themes] lists, the world stays as it was,
    so a theme that has an item list and no [_items.json] in its name is
    never overwritten. With a plain name (no [/], no NUL, short enough
    for a file name) it always returns or runs out of input, and the
    documents of every other theme stay as they were. A name that is
    neither is handed to [open] as a path, which the model does not
    follow. *)
Theorem create_theme_spares_the_others (line : string) (rest : list string)
    (w : World num) :
  let name := Str.lower (Str.strip line) in
  (name = EmptyString ∨ name ∈ get_themes w →
     ∃ run, create_theme (line :: rest) w = Some run ∧ run_world run = w)
  ∧ (is_Some (items_files w !! name) →
       Str.contains "_items.json" name = false →
       ∃ run, create_theme (line :: rest) w = Some run ∧ run_world run = w)
  ∧ (plain_name name = true → is_Some (create_theme (line :: rest) w))
  ∧ (∀ run, create_theme (line :: rest) w = Some run →
       (∀ other, other ≠ name →
          items_files (run_world run) !! other = items_files w !! other
          ∧ ratings_files (run_world run) !! other
            = ratings_files w !! other)
       ∧ clock (run_world run) = clock w).
Proof.
  cbv zeta. set (name := Str.lower (Str.strip line)).
  assert (Hlisted : name = EmptyString ∨ name ∈ get_themes w →
            ∃ run, create_theme (line :: rest) w = Some run
                   ∧ run_world run = w).
  { intros Hcase. eexists. split; [by apply create_theme_listed|done]. }
  split_and!; [done| | |].
  - intros Hfile Hplain. apply Hlisted. right.
    by apply get_themes_own_name.
  - intros Hplain.
    destruct (decide (name = EmptyString ∨ name ∈ get_themes w))
      as [Hcase|Hcase].
    { destruct (Hlisted Hcase) as (run & -> & _). by eexists. }
    apply Decidable.not_or in Hcase as [Hname Hnew].
    destruct (create_theme_cases line rest w Hname Hnew Hplain)
      as (run & -> & _). by eexists.
  - intros run Hrun.
    destruct (create_theme_inv line rest w run Hrun)
      as [Hcase|(Hname & Hnew & Hplain)].
    { destruct (Hlisted Hcase) as (run' & Hrun' & Hw).
      assert (run' = run) as -> by congruence. by rewrite Hw. }
    destruct (create_theme_cases line rest w Hname Hnew Hplain)
      as (run' & Hrun' & Hw).
    assert (run' = run) as -> by congruence.
    destruct Hw as [->|(x & added & _ & _ & ->)];
      change (Str.lower (Str.strip line)) with name.
    + split; [|done]. intros other Hother.
      assert (Hne : name ≠ other) by congruence.
      cbn. by rewrite !lookup_insert_ne by done.
    + set (w3 := save_items name (x :: added) _).
      destruct (initialize_ratings_frame name (x :: added) w3)
        as (-> & -> & Hothers).
      split; [|done]. intros other Hother.
      assert (Hne : name ≠ other) by congruence.
      rewrite Hothers by done. cbn.
      by rewrite !lookup_insert_ne by done.
Qed.


End CreateTheme.

Section RankingMode.

Context {num : Type} `{!PyNum num}.

Local Open Scope Z_scope.

(** ** [ranking_mode] *)

Lemma drawn_in_list (items : list string) (r : Round) :
  drawn items r → left_item r ∈ items ∧ right_item r ∈ items.
Proof.
  intros (i & j & _ & Hi & Hj).
  split; by eapply list_elem_of_lookup_2.
Qed.

Lemma update_ratings_dom theme winner loser (w w' : World num) :
  update_ratings theme winner loser w = Ok w' →
  dom (load_ratings theme w') = dom (load_ratings theme w).
Proof.
  intros Hup.
  destruct (update_ratings_inv _ _ _ _ _ Hup) as (table' & Htable & ->).
  rewrite load_save_ratings. by eapply updated_table_dom.
Qed.

(** With a record for each of the two items, [update_ratings] returns or
    raises what [calculate_elo_change] raised. *)
Lemma update_ratings_rated theme winner loser (w : World num) :
  winner ∈ dom (load_ratings theme w) →
  loser ∈ dom (load_ratings theme w) →
  match update_ratings theme winner loser w with
  | Ok w' => dom (load_ratings theme w') = dom (load_ratings theme w)
  | Raise e => ∃ a b, calculate_elo_change a b (of_int 32) = Raise e
  end.
Proof.
  intros Hw Hl. apply elem_of_dom in Hw as [rw Hw], Hl as [rl Hl].
  destruct (update_ratings_outcome theme winner loser w) as (_ & _ & Hboth).
  specialize (Hboth rw rl Hw Hl).
  destruct (calculate_elo_change (rating rw) (rating rl) (of_int 32))
    as [[wd ld]|e] eqn:Hc.
  - destruct Hboth as [w' Hw']. rewrite Hw'.
    by eapply update_ratings_dom.
  - rewrite Hboth. by eexists _, _.
Qed.

Lemma ranking_loop_rated theme (items : list string) rounds (w : World num) :
  (∀ item, item ∈ items → item ∈ dom (load_ratings theme w)) →
  Forall (drawn items) rounds →
  match ranking_loop theme rounds w with
  | Ok _ => True
  | Raise e => ∃ a b, calculate_elo_change a b (of_int 32) = Raise e
  end.
Proof.
  intros Hrated Hdrawn. revert w Hrated.
  induction Hdrawn as [|r rounds Hr _ IH]; intros w Hrated; [done|].
  destruct (drawn_in_list _ _ Hr) as [Hleft Hright].
  cbn [ranking_loop]. cbv zeta.
  destruct (String.eqb _ "q"); [done|].
  assert (Hstep : ∀ winner loser, winner ∈ items → loser ∈ items →
    match w' ← update_ratings theme winner loser w;
          ranking_loop theme rounds w' with
    | Ok _ => True
    | Raise e => ∃ a b, calculate_elo_change a b (of_int 32) = Raise e
    end).
  { intros winner loser Hwin Hlos.
    pose proof (update_ratings_rated theme winner loser w
                  (Hrated _ Hwin) (Hrated _ Hlos)) as Hup.
    destruct (update_ratings theme winner loser w) as [w'|e]; cbn; [|done].
    apply IH. intros item Hin. rewrite Hup. by apply Hrated. }
  destruct (String.eqb _ "<"); [by apply Hstep|].
  destruct (String.eqb _ ">"); [by apply Hstep|].
  by apply IH.
Qed.

Lemma initialize_ratings_rated theme items (w : World num) item :
  item ∈ items →
  item ∈ dom (load_ratings theme (snd (initialize_ratings theme items w))).
Proof.
  intros Hin. rewrite initialize_ratings_load, initialize_ratings_table.
  by apply elem_of_dom, init_loop_covers.
Qed.

(** [calculate_elo_change] raises what its divisions and powers raise. *)
Lemma calculate_elo_change_raises `{Herrors : !ArithmeticErrors num}
    (a b k : num) e :
  calculate_elo_change a b k = Raise e →
  e = OverflowError ∨ e = ZeroDivisionError.
Proof.
  unfold calculate_elo_change.
  repeat match goal with
  | |- context [mbind _ (?x / ?y)%py] =>
      let H := fresh "Hdiv" in
      destruct (x / y)%py eqn:H; cbn;
        [|intros [= <-]; right; by eapply div_raises]
  | |- context [mbind _ (math_pow10 ?y)] =>
      let H := fresh "Hpow" in
      destruct (math_pow10 y) eqn:H; cbn;
        [|intros [= <-]; left; by eapply pow_raises]
  end.
  done.
Qed.

(** X14. [ranking_mode] with fewer than two items returns at once and
    leaves the world as it was, whatever would be typed. Otherwise, with
    the two items of each round drawn from the list, it never fails to
    find a record: it comes to the end of the rounds, or it stops on an
    exception that [calculate_elo_change] raised for two ratings, which
    is an [OverflowError] or a [ZeroDivisionError] and never the
    [KeyError] of a missing record. *)
Theorem ranking_mode_finds_its_records `{Herrors : !ArithmeticErrors num}
    (theme : string) (rounds : list Round) (w : World num) :
  ((length (load_items theme w) < 2)%nat →
     ranking_mode theme rounds w = Ok w)
  ∧ (Forall (drawn (load_items theme w)) rounds →
     (∃ w', ranking_mode theme rounds w = Ok w')
     ∨ (∃ e a b, ranking_mode theme rounds w = Raise e
                 ∧ calculate_elo_change a b (of_int 32) = Raise e
                 ∧ (e = OverflowError ∨ e = ZeroDivisionError)
                 ∧ ∀ key, e ≠ KeyError key)).
Proof.
  split.
  { intros Hfew. unfold ranking_mode. cbv zeta.
    apply Nat.ltb_lt in Hfew. by rewrite Hfew. }
  intros Hdrawn. unfold ranking_mode. cbv zeta.
  destruct (length (load_items theme w) <? 2)%nat eqn:Hfew.
  { left. by exists w. }
  pose proof (ranking_loop_rated theme (load_items theme w) rounds
                (snd (initialize_ratings theme (load_items theme w) w))
                (initialize_ratings_rated theme _ w) Hdrawn) as Hloop.
  destruct (ranking_loop _ _ _) as [w'|e].
  - left. by exists w'.
  - right. destruct Hloop as (a & b & Hraise). exists e, a, b.
    pose proof (calculate_elo_change_raises _ _ _ _ Hraise) as Herr.
    split_and!; [done|done|done|].
    intros key ->. by destruct Herr.
Qed.

(** ** The counters over a session *)

Lemma total_insert_new (f : RatingRecord num → Z) (ratings : Ratings num)
    key r :
  ratings !! key = None →
  total f (<[key := r]> ratings) = f r + total f ratings.
Proof.
  intros Hkey. unfold total.
  apply (map_fold_insert_L (λ _ x acc, f x + acc)); [|done].
  intros; lia.
Qed.

Lemma init_loop_total (f : RatingRecord num → Z) now items (st : InitLoop) :
  (∀ stamp, f (new_record stamp) = 0) →
  total f (loop_ratings (foldl (init_item now) st items))
  = total f (loop_ratings st).
Proof.
  intros Hzero. revert st.
  induction items as [|item items IH]; intros st; [done|].
  cbn. rewrite IH. unfold init_item.
  destruct (loop_ratings st !! item) eqn:Hitem; [done|]. cbn.
  rewrite total_insert_new by done. rewrite Hzero. lia.
Qed.

Lemma ranking_loop_totals theme rounds (w w' : World num) :
  ranking_loop theme rounds w = Ok w' →
  let n := Z.of_nat (decided rounds) in
  items_files w' = items_files w
  ∧ total plays (load_ratings theme w')
    = total plays (load_ratings theme w) + 2 * n
  ∧ total wins (load_ratings theme w')
    = total wins (load_ratings theme w) + n
  ∧ total losses (load_ratings theme w')
    = total losses (load_ratings theme w) + n.
Proof.
  revert w. induction rounds as [|r rounds IH]; intros w.
  { intros [= <-]. cbn. split_and!; [done|lia..]. }
  cbn [ranking_loop decided]. cbv zeta.
  destruct (String.eqb _ "q").
  { intros [= <-]. cbn. split_and!; [done|lia..]. }
  assert (Hstep : ∀ winner loser,
    (w1 ← update_ratings theme winner loser w;
     ranking_loop theme rounds w1) = Ok w' →
    let n := Z.of_nat (S (decided rounds)) in
    items_files w' = items_files w
    ∧ total plays (load_ratings theme w')
      = total plays (load_ratings theme w) + 2 * n
    ∧ total wins (load_ratings theme w')
      = total wins (load_ratings theme w) + n
    ∧ total losses (load_ratings theme w')
      = total losses (load_ratings theme w) + n).
  { intros winner loser.
    destruct (update_ratings theme winner loser w) as [w1|] eqn:Hw1;
      cbn; [|done].
    intros Hrest. destruct (IH _ Hrest) as (Hi & Hp & Hwi & Hl).
    destruct (update_ratings_inv _ _ _ _ _ Hw1) as (table' & Hup & ->).
    rewrite load_save_ratings in Hp, Hwi, Hl.
    destruct (updated_table_totals _ _ _ _ Hup) as (Hp' & Hw' & Hl').
    split_and!; [done|lia..]. }
  destruct (String.eqb _ "<"); [apply Hstep|].
  destruct (String.eqb _ ">"); [apply Hstep|].
  cbn. apply IH.
Qed.

(** X15. A session of [ranking_mode] that comes to the end of its rounds
    leaves the item lists as they were, and with at least two items each
    round answered [<] or [>] before the first [q] has added 2 to the sum
    of [plays] over the theme's table and 1 to the sums of [wins] and of
    [losses]; the other rounds count for nothing. *)
Theorem ranking_mode_counts (theme : string) (rounds : list Round)
    (w w' : World num) :
  ranking_mode theme rounds w = Ok w' →
  let n := Z.of_nat (decided rounds) in
  items_files w' = items_files w
  ∧ ((2 ≤ length (load_items theme w))%nat →
       total plays (load_ratings theme w')
       = total plays (load_ratings theme w) + 2 * n
       ∧ total wins (load_ratings theme w')
         = total wins (load_ratings theme w) + n
       ∧ total losses (load_ratings theme w')
         = total losses (load_ratings theme w) + n).
Proof.
  unfold ranking_mode. cbv zeta.
  destruct (length (load_items theme w) <? 2)%nat eqn:Hfew.
  { apply Nat.ltb_lt in Hfew. intros [= <-]. split; [done|lia]. }
  intros Hloop.
  destruct (ranking_loop_totals _ _ _ _ Hloop) as (Hi & Hp & Hw & Hl).
  rewrite initialize_ratings_load, initialize_ratings_table in Hp, Hw, Hl.
  rewrite init_loop_total in Hp, Hw, Hl by done. cbn in Hp, Hw, Hl.
  destruct (initialize_ratings_frame theme (load_items theme w) w)
    as (Hitems & _ & _).
  split; [by rewrite Hi|done].
Qed.

End RankingMode.

(** The two arithmetics raise arithmetic errors only. *)
#[global] Instance ideal_errors : ArithmeticErrors R.
Proof.
  split.
  - intros x y e. cbn. unfold Ideal.div.
    destruct (Req_dec_T y 0); [|done]. by intros [= <-].
  - intros y e. by cbn.
Qed.

#[global] Instance binary64_errors : ArithmeticErrors float.
Proof.
  split.
  - intros x y e. cbn. unfold F64.div.
    destruct (PrimFloat.eqb y 0); [|done]. by intros [= <-].
  - intros y e. cbn. unfold F64.pow10.
    destruct (Prim2SF y) as [s|[]| |neg m ex]; try done.
    destruct (PrimFloat.leb 400 (PrimFloat.abs y)).
    + destruct neg; [done|by intros [= <-]].
    + destruct (F64.pow10_finite neg m ex); try done. by intros [= <-].
Qed.

Section IdealSession.

Local Open Scope R_scope.

(** X16. In exact arithmetic a session of [ranking_mode] never stops on
    an exception: whatever is drawn from the list and whatever is typed,
    it comes to the end of the rounds. *)
Theorem ranking_mode_ideal_completes (theme : string)
    (rounds : list Round) (w : World R) :
  Forall (drawn (load_items theme w)) rounds →
  ∃ w', ranking_mode theme rounds w = Ok w'.
Proof.
  intros Hdrawn. unfold ranking_mode. cbv zeta.
  destruct (length (load_items theme w) <? 2)%nat; [by eexists|].
  pose proof (ranking_loop_rated theme (load_items theme w) rounds
                (snd (initialize_ratings theme (load_items theme w) w))
                (initialize_ratings_rated theme _ w) Hdrawn) as Hloop.
  destruct (ranking_loop _ _ _) as [w'|e]; [by eexists|].
  destruct Hloop as (a & b & Hraise).
  destruct (ideal_elo_change a b) as (wd & ld & Hok & _).
  congruence.
Qed.

End IdealSession.

Section SelfPlay.

Local Open Scope R_scope.

(** ** An item against itself *)

(** X17. [random.sample] draws two positions, so a list without
    duplicates never has an item play itself, and a list that holds an
    item twice can. In exact arithmetic such a game leaves the item's
    rating as it was and still counts: 2 plays, 1 win and 1 loss more, and
    16 enters both statistics. *)
Theorem self_play (theme item : string) (w : World R) (r : RatingRecord R) :
  load_ratings theme w !! item = Some r →
  (∀ items round, NoDup items → drawn items round →
     left_item round ≠ right_item round)
  ∧ drawn [item; item]
      {| left_item := item; right_item := item; answer := "<" |}
  ∧ ∃ w' r',
      update_ratings theme item item w = Ok w'
      ∧ load_ratings theme w' !! item = Some r'
      ∧ rating r' = rating r
      ∧ plays r' = (plays r + 2)%Z
      ∧ wins r' = (wins r + 1)%Z
      ∧ losses r' = (losses r + 1)%Z
      ∧ biggest_win r' = py_max (biggest_win r) 16
      ∧ lowest_loss r' = py_max (lowest_loss r) 16.
Proof.
  intros Hr. split_and!.
  - intros items round Hnodup (i & j & Hij & Hi & Hj) Heq.
    apply Hij. eapply NoDup_lookup; [done..|]. by rewrite Hj, <- Heq.
  - by exists 0%nat, 1%nat.
  - pose proof (ideal_elo_change_equal (rating r)) as Hc.
    exists (save_ratings theme
              (<[item := lost (won r 16) (-16)]> (load_ratings theme w)) w),
           (lost (won r 16) (-16)).
    unfold update_ratings.
    rewrite (updated_table_same _ _ _ _ _ Hr Hc). cbn.
    rewrite load_save_ratings, lookup_insert_eq.
    split_and!; try done.
    + lra.
    + lia.
    + f_equal. unfold Rabs. destruct (Rcase_abs (-16)); lra.
Qed.

End SelfPlay.

Section FileNames.

(** ** The names of the files *)

Lemma append_inv_r (a b s : string) : a +:+ s = b +:+ s → a = b.
Proof.
  revert b. induction a as [|c a IH]; intros [|d b] Heq; [done| | |].
  - apply (f_equal String.length) in Heq.
    rewrite !length_append in Heq. cbn [String.length] in Heq. lia.
  - apply (f_equal String.length) in Heq.
    rewrite !length_append in Heq. cbn [String.length] in Heq. lia.
  - change (String c (a +:+ s) = String d (b +:+ s)) in Heq.
    injection Heq as -> Heq. f_equal. by apply IH.
Qed.

(** A name without [/] followed by a suffix without [/] has no [/]. *)
Lemma no_slash_append (s suffix : string) :
  Str.contains "/" s = false → Str.contains "/" suffix = false →
  Str.contains "/" (s +:+ suffix) = false.
Proof.
  intros Hs Hsuffix. induction s as [|c s IH]; [done|].
  change (String c s +:+ suffix) with (String c (s +:+ suffix)).
  rewrite contains_unfold in Hs |- *.
  cbn [String.prefix] in Hs |- *.
  destruct (ascii_dec "/" c) as [->|Hc]; [by destruct s|].
  by apply IH.
Qed.

Lemma plain_name_no_slash (name : string) :
  plain_name name = true → Str.contains "/" name = false.
Proof.
  unfold plain_name. intros H.
  apply andb_true_iff in H as [H _]. apply andb_true_iff in H as [H _].
  by apply negb_true_iff in H.
Qed.

(** X18. The files of plain theme names are entries of [themes/], one
    for each document: [f"{theme}_items.json"] and
    [f"{theme}_ratings.json"] have no [/] when the theme has none, so
    [os.path.join] with [themes] names an entry of that directory; the
    names of the item lists of different themes differ, so do the names
    of their rating tables, and no item list has the name of a rating
    table. A name with a [/] is a path, not an entry: [./t] is not
    plain. *)
Theorem file_names_do_not_collide :
  (∀ theme, plain_name theme = true →
     Str.contains "/" (items_name theme) = false
     ∧ Str.contains "/" (ratings_name theme) = false)
  ∧ (∀ theme1 theme2,
       items_name theme1 = items_name theme2 → theme1 = theme2)
  ∧ (∀ theme1 theme2,
       ratings_name theme1 = ratings_name theme2 → theme1 = theme2)
  ∧ (∀ theme1 theme2, items_name theme1 ≠ ratings_name theme2)
  ∧ plain_name "./t" = false.
Proof.
  split_and!.
  - intros theme Hplain. apply plain_name_no_slash in Hplain.
    split; by apply no_slash_append.
  - intros theme1 theme2. apply append_inv_r.
  - intros theme1 theme2. apply append_inv_r.
  - intros theme1 theme2 Heq.
    pose proof (endswith_append "_items.json" theme1) as Hends.
    fold (items_name theme1) in Hends. rewrite Heq in Hends.
    unfold ratings_name in Hends.
    by rewrite ratings_name_not_items in Hends.
  - reflexivity.
Qed.

End FileNames.

Section CreateTwice.

Context {num : Type} `{!PyNum num}.

(** X19. Creating a theme twice does nothing the second time: when
    [create_theme] has run with a name that does not contain
    [_items.json] (the name was empty, listed, or plain), a second
    [create_theme] with the same line leaves the world as the first one
    left it, whatever else is typed. *)
Theorem create_theme_once (line : string) (rest rest' : list string)
    (w : World num) (run : Run num) :
  Str.contains "_items.json" (Str.lower (Str.strip line)) = false →
  create_theme (line :: rest) w = Some run →
  ∃ run', create_theme (line :: rest') (run_world run) = Some run'
          ∧ run_world run' = run_world run.
Proof.
  set (name := Str.lower (Str.strip line)). intros Hpat Hrun.
  assert (Hlisted : name = EmptyString ∨ name ∈ get_themes (run_world run)).
  { destruct (create_theme_inv line rest w run Hrun)
      as [Hcase|(Hname & Hnew & Hplain)].
    { rewrite (create_theme_listed line rest w Hcase) in Hrun.
      by injection Hrun as <-. }
    right. apply get_themes_own_name; [|done].
    destruct (create_theme_cases line rest w Hname Hnew Hplain)
      as (run0 & Hrun0 & Hw).
    assert (run0 = run) as -> by congruence.
    destruct Hw as [->|(x & added & _ & _ & ->)];
      change (Str.lower (Str.strip line)) with name.
    - cbn. by rewrite lookup_insert_eq.
    - set (w3 := save_items name (x :: added) _).
      destruct (initialize_ratings_frame name (x :: added) w3)
        as (-> & _ & _).
      cbn. by rewrite lookup_insert_eq. }
  eexists. split; [by apply create_theme_listed|done].
Qed.

End CreateTwice.

(** ** Witnesses on the console sessions *)

Lemma update_ratings_frame_witness :
  items_files Play.after_one = items_files Session.started
  ∧ (∀ other, other ≠ "t" →
       load_ratings other Play.after_one
       = load_ratings other Session.started)
  ∧ clock Play.after_one = clock Session.started
  ∧ ticks Play.after_one = ticks Session.started
  ∧ dom (load_ratings "t" Play.after_one)
    = dom (load_ratings "t" Session.started)
  ∧ (∀ item r, load_ratings "t" Session.started !! item = Some r →
       ∃ r', load_ratings "t" Play.after_one !! item = Some r'
             ∧ date_added r' = date_added r
             ∧ (item ≠ "X" → item ≠ "Y" → r' = r)).
Proof.
  apply (update_ratings_frame "t" "X" "Y" Session.started Play.after_one).
  vm_compute. reflexivity.
Defined.

Lemma outcomes_are_counted_witness :
  let n := Z.of_nat (length Session.five_games) in
  (total plays (load_ratings "t" Session.finished)
   = total plays (load_ratings "t" Session.started) + 2 * n
   ∧ total wins (load_ratings "t" Session.finished)
     = total wins (load_ratings "t" Session.started) + n
   ∧ total losses (load_ratings "t" Session.finished)
     = total losses (load_ratings "t" Session.started) + n)%Z.
Proof.
  apply (outcomes_are_counted "t" Session.five_games Session.started
           Session.finished).
  vm_compute. reflexivity.
Defined.

Lemma elo_change_below_k_witness :
  (∃ winner_delta loser_delta,
     calculate_elo_change 1000 1200 32 = Ok (winner_delta, loser_delta)
     ∧ 0 < winner_delta < 32
     ∧ - 32 < loser_delta < 0
     ∧ winner_delta + loser_delta = 0)%R.
Proof. apply (elo_change_below_k 1000 1200 32). lra. Defined.

Lemma elo_change_monotone_witness :
  (∃ wd ld wd' ld',
     calculate_elo_change 1000 1000 32 = Ok (wd, ld)
     ∧ calculate_elo_change 1200 1000 32 = Ok (wd', ld')
     ∧ wd' <= wd ∧ ld <= ld')%R.
Proof. apply (elo_change_monotone 1000 1000 1200 1000 32); lra. Defined.

Lemma ratings_sum_is_kept_witness :
  ∃ w', record_outcomes "t" Play.games_three (Session.three (num := R))
        = Ok w'
        ∧ total_rating (load_ratings "t" w')
          = total_rating (load_ratings "t" (Session.three (num := R))).
Proof.
  apply (ratings_sum_is_kept "t" Play.games_three Session.three).
  unfold Play.games_three.
  repeat (apply Forall_cons; split); [..|by apply Forall_nil];
    split; eexists; reflexivity.
Defined.


Lemma create_theme_once_witness :
  ∃ run',
    create_theme ["  Films "; "y"; "Heat"; EmptyString]
      (run_world Play.created) = Some run'
    ∧ run_world run' = run_world Play.created.
Proof.
  apply (create_theme_once "  Films "
           ["Y"; "Alien"; " Brazil "; "Alien"; EmptyString; "1"]
           ["y"; "Heat"; EmptyString] Session.fresh Play.created).
  - vm_compute. reflexivity.
  - vm_compute. reflexivity.
Defined.

Lemma ranking_mode_finds_its_records_witness :
  ((length (load_items "t" Session.fresh) < 2)%nat →
     ranking_mode "t" Play.rounds Session.fresh = Ok Session.fresh)
  ∧ ((∃ w', ranking_mode "t" Play.rounds Session.fresh = Ok w')
     ∨ (∃ e (a b : float),
          ranking_mode "t" Play.rounds Session.fresh = Raise e
          ∧ calculate_elo_change a b (of_int 32) = Raise e
          ∧ (e = OverflowError ∨ e = ZeroDivisionError)
          ∧ ∀ key, e ≠ KeyError key)).
Proof.
  destruct (ranking_mode_finds_its_records (Herrors := binary64_errors)
              "t" Play.rounds Session.fresh) as [Hfew Hrounds].
  split; [exact Hfew|]. apply Hrounds.
  unfold Play.rounds.
  repeat (apply Forall_cons; split); [..|by apply Forall_nil];
    first [ exists 0%nat, 1%nat; split_and!; [lia|reflexivity..]
          | exists 1%nat, 0%nat; split_and!; [lia|reflexivity..] ].
Defined.

Lemma ranking_mode_counts_witness :
  let n := Z.of_nat (decided Play.rounds) in
  items_files Play.played = items_files Session.fresh
  ∧ ((2 ≤ length (load_items "t" Session.fresh))%nat →
       (total plays (load_ratings "t" Play.played)
        = total plays (load_ratings "t" Session.fresh) + 2 * n
        ∧ total wins (load_ratings "t" Play.played)
          = total wins (load_ratings "t" Session.fresh) + n
        ∧ total losses (load_ratings "t" Play.played)
          = total losses (load_ratings "t" Session.fresh) + n)%Z).
Proof.
  apply (ranking_mode_counts "t" Play.rounds Session.fresh Play.played).
  vm_compute. reflexivity.
Defined.

Lemma ranking_mode_ideal_completes_witness :
  ∃ w', ranking_mode "t" Play.rounds_three (Session.three (num := R))
        = Ok w'.
Proof.
  apply (ranking_mode_ideal_completes "t" Play.rounds_three Session.three).
  unfold Play.rounds_three.
  repeat (apply Forall_cons; split); [..|by apply Forall_nil];
    first [ exists 1%nat, 2%nat; split_and!; [lia|reflexivity..]
          | exists 0%nat, 1%nat; split_and!; [lia|reflexivity..]
          | exists 2%nat, 0%nat; split_and!; [lia|reflexivity..] ].
Defined.

Lemma self_play_witness :
  let w := Session.three (num := R) in
  let r := Session.record_of (num := R) (of_int 1200) in
  (∀ items round, NoDup items → drawn items round →
     left_item round ≠ right_item round)
  ∧ drawn ["A"; "A"]
      {| left_item := "A"; right_item := "A"; answer := "<" |}
  ∧ ∃ w' r',
      update_ratings "t" "A" "A" w = Ok w'
      ∧ load_ratings "t" w' !! "A" = Some r'
      ∧ rating r' = rating r
      ∧ plays r' = (plays r + 2)%Z
      ∧ wins r' = (wins r + 1)%Z
      ∧ losses r' = (losses r + 1)%Z
      ∧ biggest_win r' = py_max (biggest_win r) 16%R
      ∧ lowest_loss r' = py_max (lowest_loss r) 16%R.
Proof.
  apply (self_play "t" "A" Session.three (Session.record_of (of_int 1200))).
  reflexivity.
Defined.
